(** * ezachrisen/rules: the rule-tree evaluation engine

    A shallow embedding of the two Go packages of the repository:

    - [Module rules]: the package [rules] (rules.go): the [Engine]
      interface and the helpers [EvaluateAll] and [EvaluateUntilTrue];
    - [Module cel]: the package [cel], the engine backed by cel-go:
      [AddRule], [addRuleWithSchema], [evaluate], [Calculate], [addSelf].

    Conventions of the embedding.

    - A Go [interface{}] value is a value of the type [interface]; the nil
      interface is the constructor [Nil].
    - A Go [map[string]T] is a [gmap string T].  A map is a reference: a
      function that writes to a map it received returns the map as it
      leaves it, and the caller goes on with that map.
    - A Go [error] is a value of the type [error], one constructor per
      [fmt.Errorf] call of the source; a nil error is [None].
    - A Go function that can dereference a nil pointer returns an [exec]:
      [Done] with what it returns, or [Panic].
    - A Go [int] is a [Z] kept in the 64-bit range by [wrap64]. *)

From Stdlib Require Import ZArith String Ascii List Bool PrimFloat Permutation.
From stdpp Require Import gmap strings list.

Set Warnings "-register-all".
Local Open Scope string_scope.
Local Open Scope Z_scope.

(** ** What both packages share *)

(** [interface{}]: a dynamically typed value.  [Nil] is the nil interface;
    [IDyn t repr] stands for a value of any other dynamic type [t]. *)
Inductive interface : Type :=
| Nil
| IBool (b : bool)
| IInt64 (i : Z)
| IFloat64 (f : float)
| IString (s : string)
| IDyn (t : string) (repr : string).

Definition isNil (v : interface) : bool :=
  match v with Nil => true | _ => false end.

(** The type assertion [v.(bool)], in its two-result form. *)
Definition assertBool (v : interface) : bool * bool :=
  match v with IBool b => (b, true) | _ => (false, false) end.

(** The type assertion [v.(float64)], in its two-result form. *)
Definition assertFloat64 (v : interface) : float * bool :=
  match v with IFloat64 f => (f, true) | _ => (0%float, false) end.

(** A function that may panic on a nil-pointer dereference. *)
Inductive exec (A : Type) : Type :=
| Done (a : A)
| Panic.
Arguments Done {A} a.
Arguments Panic {A}.

(** Two's complement wrap-around of Go's 64-bit [int]. *)
Definition wrap64 (z : Z) : Z := (z + 2 ^ 63) mod 2 ^ 64 - 2 ^ 63.

Definition int_add (a b : Z) : Z := wrap64 (a + b).

(** The input data of an evaluation, [map[string]interface{}]. *)
Abbreviation Data := (gmap string interface).

(** * Package cel: the engine backed by cel-go *)
Module cel.

(** ** The rule model the engine is written against

    The engine imports the rule model ([rules.Rule], [rules.Result],
    [rules.EvalOptions], [rules.Option], [rules.ApplyOptions],
    [rules.Proto], [rules.SelfKey], [rules.DefaultDepth]) from a revision of
    the package [rules] whose declarations are not in rules.go.  They are
    given here as the engine uses them.  A field whose Go name is taken
    (by a type or by a field of another struct) carries its struct's name
    as a prefix. *)

(** [rules.Type], with the variant [rules.Proto] that [celType] handles;
    [NilType] is the nil value of this interface type (a type left unset).
    Modelled from the spec: the declaration of [Proto]; a Message has a
    name and an external message descriptor. *)
Inductive rules_Type : Type :=
| NilType
| String
| Int
| Float
| Any
| Bool
| Duration
| Timestamp
| List (ValueType : rules_Type)
| Map (KeyType ValueType : rules_Type)
| Proto (Protoname : string) (Message : interface).

(** Modelled from the spec: [rules.DataElement], a name and a type. *)
Record DataElement : Type := mkDataElement {
  Name : string;
  DataElement_Type : rules_Type
}.

Record Schema : Type := mkSchema {
  Schema_ID : string;
  Elements : list DataElement
}.

(** Modelled from the spec: [rules.EvalOptions]. *)
Record EvalOptions : Type := mkEvalOptions {
  MaxDepth : Z;
  ReturnPass : bool;
  ReturnFail : bool;
  StopIfParentNegative : bool;
  StopFirstPositiveChild : bool;
  StopFirstNegativeChild : bool
}.

(** Modelled from the spec: [rules.Option], a function that overrides
    fields of the options it is applied to (a [func] on a pointer to [EvalOptions]). *)
Definition Option : Type := EvalOptions -> EvalOptions.

(** Modelled from the spec: [rules.ApplyOptions(&o, opts...)] applies the
    overrides in their order. *)
Definition ApplyOptions (o : EvalOptions) (opts : list Option) : EvalOptions :=
  fold_left (fun acc f => f acc) opts o.

(** Modelled from the spec: [rules.Rule], a node of a rule tree. *)
Inductive Rule : Type := mkRule {
  ID : string;
  Expr : string;
  Rule_Schema : Schema;
  Self : interface;
  Rule_Action : interface;
  Rule_Meta : interface;
  Opts : list Option;
  Rules : list Rule
}.

(** Induction on a rule tree: a property that holds of a rule whenever it
    holds of its child rules holds of every rule. *)
Section Rule_induction.

Variable P : Rule -> Prop.
Hypothesis step : forall id expr sch self action meta opts cs,
  Forall P cs -> P (mkRule id expr sch self action meta opts cs).

Fixpoint Rule_tree_ind (r : Rule) : P r :=
  match r with
  | mkRule id expr sch self action meta opts cs =>
    step id expr sch self action meta opts cs
         ((fix children (cs : list Rule) : Forall P cs :=
             match cs with
             | [] => @List.Forall_nil Rule P
             | c :: cs' => @List.Forall_cons Rule P c cs' (Rule_tree_ind c) (children cs')
             end) cs)
  end.

End Rule_induction.

(** Modelled from the spec: [rules.Result]; the fields are those that
    [evaluate] fills in. *)
Inductive Result : Type := mkResult {
  RuleID : string;
  Pass : bool;
  Value : interface;
  Action : interface;
  Meta : interface;
  Depth : Z;
  Results : gmap string Result
}.

(** [pr.Pass = b; pr.Value = v] *)
Definition setValue (pr : Result) (v : interface) (b : bool) : Result :=
  mkResult (RuleID pr) b v (Action pr) (Meta pr) (Depth pr) (Results pr).

(** [pr.Results[id] = r] *)
Definition setChild (pr : Result) (id : string) (r : Result) : Result :=
  mkResult (RuleID pr) (Pass pr) (Value pr) (Action pr) (Meta pr) (Depth pr)
           (<[id := r]> (Results pr)).

(** ** Errors: one constructor per [fmt.Errorf] of the package *)
Inductive error : Type :=
| External (msg : string)
    (* an error returned by cel-go or by the protobuf registry *)
| RequiredRuleID (expr : string)
    (* "Required rule ID for rule with expression %s" *)
| RuleNotFound
    (* "Rule not found" *)
| ErrorEvaluatingRule (id : string) (cause : error)
    (* "Error evaluating rule %s:%w" *)
| NotFloat64 (result : interface)
    (* "Result (%v), type %T could not be converted to float64" *)
| ParsingRule (id : string) (cause : error)
    (* "parsing rule %s, %w" *)
| CheckingRule (id : string) (cause : error)
    (* "checking rule %s, %w" *)
| GeneratingProgram (id : string) (cause : error)
    (* "generating program %s, %w" *)
| NoValidSchema (id : string)
    (* "No valid schema for rule %s" *)
| CompilingRule (id : string) (cause : error)
    (* "compiling rule %s: %w" *)
| AddingRule (id : string) (cause : error)
    (* "adding rule %s: %w" *)
| SettingMapKey (t : rules_Type) (cause : error)
    (* "Setting key of %v map: %w" *)
| SettingMapValue (t : rules_Type) (cause : error)
    (* "Setting value of %v map: %w" *)
| SettingListValue (t : rules_Type) (cause : error)
    (* "Setting value of %v list: %w" *)
| CastingProto (name : string)
    (* "Casting to proto message %v" *)
| RegisteringProto (name : string) (cause : error)
    (* "registering proto message %v: %w" *).

(** A compiled [cel.Program]: [Eval(data)] gives the value [rawValue.Value()]
    or an error.  It reads the data map and does not write to it. *)
Abbreviation Program := (Data -> interface * option error).

(** [CELEngine].  The store [programs] never holds a nil program: the one
    write to it, in [addRuleWithSchema], stores what [compileRule] returned
    with a nil error. *)
Record CELEngine : Type := mkCELEngine {
  rules : gmap string Rule;
  programs : gmap string Program
}.

Definition NewEngine : CELEngine := mkCELEngine ∅ ∅.

(** ** Evaluation *)

Section Evaluation.

(** [rules.SelfKey], the reserved key of the data map, and
    [rules.DefaultDepth]: constants of the package [rules]. *)
Variable SelfKey : string.
Variable DefaultDepth : Z.

(** Add the self object (if provided) to the data. *)
Definition addSelf (data : Data) (self : interface) : Data :=
  if negb (isNil self) then <[SelfKey := self]> data
  else delete SelfKey data.

(** What [evaluate] gives back: the data map as it leaves it, and either
    the pair of a [Result] pointer and an error it returns or a panic. *)
Definition Evaluated : Type := Data * exec (option Result * option error).

(** [res.Pass] for a pointer [res]: a nil pointer cannot be dereferenced. *)
Definition derefPass (res : option Result) : exec bool :=
  match res with
  | Some r => Done (Pass r)
  | None => Panic
  end.

(** [flag && res.Pass == want]: the right operand is evaluated only when
    [flag] holds. *)
Definition stopOn (flag : bool) (res : option Result) (want : bool) : exec bool :=
  if flag then
    match derefPass res with
    | Done p => Done (eqb p want)
    | Panic => Panic
    end
  else Done false.

(** The loop over the child rules of [evaluate] (lines 150-169 of the
    engine); [ev c data] is the recursive call
    [e.evaluate(data, c, n+1, opt)]. *)
Definition evaluateChildren (ev : Rule -> Data -> Evaluated) (opt : EvalOptions)
  : list Rule -> Result -> Data -> Evaluated :=
  fix loop (cs : list Rule) (pr : Result) (data : Data) {struct cs} : Evaluated :=
    match cs with
    | [] => (data, Done (Some pr, None))
    | c :: cs' =>
      match ev c data with
      | (data, Panic) => (data, Panic)
      | (data, Done (res, err)) =>
        match err with
        | Some err => (data, Done (None, Some err))
        | None =>
          let pr :=
            match res with
            | Some r =>
              if (negb (Pass r) && ReturnFail opt) || (Pass r && ReturnPass opt)
              then setChild pr (ID c) r
              else pr
            | None => pr
            end in
          match stopOn (StopFirstPositiveChild opt) res true with
          | Panic => (data, Panic)
          | Done true => (data, Done (Some pr, None))
          | Done false =>
            match stopOn (StopFirstNegativeChild opt) res false with
            | Panic => (data, Panic)
            | Done true => (data, Done (Some pr, None))
            | Done false => loop cs' pr data
            end
          end
        end
      end
    end.

(** The rule's own evaluation (lines 122-143 of the engine): the program
    stored for the rule, when there is one, run on the data map with the
    self object added. *)
Definition evaluateOwn (e : CELEngine) (rule : Rule) (pr : Result) (data : Data)
  : Data * (Result + error) :=
  match programs e !! ID rule with
  | Some program =>
    let data := addSelf data (Self rule) in
    match program data with
    | (_, Some err) => (data, inr (ErrorEvaluatingRule (ID rule) err))
    | (rawValue, None) =>
      match assertBool rawValue with
      | (v, true) => (data, inl (setValue pr rawValue v))
      | (_, false) => (data, inl (setValue pr rawValue false))
      end
    end
  | None => (data, inl (setValue pr (IBool true) true))
  end.

(** The result [evaluate] starts from: [rules.Result{Meta: rule.Meta,
    Action: rule.Action, RuleID: rule.ID, Results: make(...), Depth: n}]. *)
Definition newResult (rule : Rule) (n : Z) : Result :=
  mkResult (ID rule) false Nil (Rule_Action rule) (Rule_Meta rule) n ∅.

(** Recursively evaluate the rule and its child rules. *)
Fixpoint evaluate (e : CELEngine) (data : Data) (rule : Rule) (n : Z)
  (opt : EvalOptions) {struct rule} : Evaluated :=
  if MaxDepth opt <? n then (data, Done (None, None))
  else
    let pr := newResult rule n in
    let opt := ApplyOptions opt (Opts rule) in
    match evaluateOwn e rule pr data with
    | (data, inr err) => (data, Done (None, Some err))
    | (data, inl pr) =>
      if StopIfParentNegative opt && negb (Pass pr) then (data, Done (Some pr, None))
      else
        evaluateChildren (fun c data => evaluate e data c (int_add n 1) opt) opt
                         (Rules rule) pr data
    end.

(** Evaluate the rule against the input data. *)
Definition Evaluate (e : CELEngine) (data : Data) (id : string) (opts : list Option)
  : Evaluated :=
  let o := ApplyOptions (mkEvalOptions DefaultDepth true true false false false) opts in
  match rules e !! id with
  | None => (data, Done (None, Some RuleNotFound))
  | Some rule => evaluate e data rule 0 o
  end.

End Evaluation.

(** ** Registration *)

(** [strings.Trim(s, cutset)] for a cutset of ASCII characters: the string
    without its leading and trailing characters that are in the cutset. *)
Definition inCutset (cutset : string) (c : ascii) : bool :=
  existsb (Ascii.eqb c) (list_ascii_of_string cutset).

Fixpoint trimLeft (cutset : string) (s : list ascii) : list ascii :=
  match s with
  | [] => []
  | c :: s' => if inCutset cutset c then trimLeft cutset s' else s
  end.

Definition Trim (s cutset : string) : string :=
  let l := trimLeft cutset (list_ascii_of_string s) in
  string_of_list_ascii (rev (trimLeft cutset (rev l))).

(** The declaration types of cel-go ([decls.String], [decls.NewMapType], ...). *)
Inductive exprbp_Type : Type :=
| decls_String
| decls_Int
| decls_Double
| decls_Bool
| decls_Duration
| decls_Timestamp
| decls_Any
| decls_NewMapType (key value : exprbp_Type)
| decls_NewListType (elem : exprbp_Type)
| decls_NewObjectType (name : string).

(** [decls.NewIdent(name, typ, nil)] *)
Record exprbp_Decl : Type := decls_NewIdent {
  Decl_Name : string;
  Decl_Type : exprbp_Type
}.

(** [cel.Declarations(items...)], a [cel.EnvOption]. *)
Definition EnvOption : Type := list exprbp_Decl.

(** What the engine uses of cel-go and of the protobuf runtime. *)
Record Backend : Type := mkBackend {
  Env : Type;
  Ast : Type;
  (* cel.NewEnv(decls) *)
  NewEnv : EnvOption -> Env + error;
  (* env.Parse(expr): the AST and the error of the issues, if any *)
  Parse : Env -> string -> Ast * option error;
  (* env.Check(ast) *)
  Check : Env -> Ast -> Ast * option error;
  (* env.Program(ast) *)
  EnvProgram : Env -> Ast -> Program + error;
  (* the type assertion v.Message.(protoiface.MessageV1) *)
  isMessageV1 : interface -> bool;
  (* pb.DefaultDb.RegisterMessage(protoMessage) *)
  RegisterMessage : interface -> option error
}.

Section Registration.

Variable B : Backend.

(** celType converts from a rules.Type to a CEL type. *)
Fixpoint celType (t : rules_Type) : exprbp_Type + error :=
  match t with
  | String => inl decls_String
  | Int => inl decls_Int
  | Float => inl decls_Double
  | Bool => inl decls_Bool
  | Duration => inl decls_Duration
  | Timestamp => inl decls_Timestamp
  | Map KeyType ValueType =>
    match celType KeyType with
    | inr err => inr (SettingMapKey KeyType err)
    | inl key =>
      match celType ValueType with
      | inr err => inr (SettingMapValue ValueType err)
      | inl val => inl (decls_NewMapType key val)
      end
    end
  | List ValueType =>
    match celType ValueType with
    | inr err => inr (SettingListValue ValueType err)
    | inl val => inl (decls_NewListType val)
    end
  | Proto Protoname Message =>
    if negb (isMessageV1 B Message) then inr (CastingProto Protoname)
    else
      match RegisterMessage B Message with
      | Some err => inr (RegisteringProto Protoname err)
      | None => inl (decls_NewObjectType Protoname)
      end
  | Any | NilType => inl decls_Any
  end.

(** The loop of [schemaToDeclarations] over the elements of the schema. *)
Fixpoint declareElements (ds : list DataElement) (items : list exprbp_Decl)
  : list exprbp_Decl + error :=
  match ds with
  | [] => inl items
  | d :: ds' =>
    match celType (DataElement_Type d) with
    | inr err => inr err
    | inl typ => declareElements ds' (items ++ [decls_NewIdent (Name d) typ])
    end
  end.

(** schemaToDeclarations converts from a rules/Schema to a set of CEL
    declarations that are passed to the CEL engine. *)
Definition schemaToDeclarations (s : Schema) : EnvOption + error :=
  declareElements (Elements s) [].

(** Parse, check and store the rule. *)
Definition compileRule (env : Env B) (r : Rule) : Program + error :=
  match Parse B env (Expr r) with
  | (_, Some err) => inr (ParsingRule (ID r) err)
  | (p, None) =>
    match Check B env p with
    | (_, Some err) => inr (CheckingRule (ID r) err)
    | (c, None) =>
      match EnvProgram B env c with
      | inr err => inr (GeneratingProgram (ID r) err)
      | inl prg => inl prg
      end
    end
  end.

(** The first block of [addRuleWithSchema] (lines 249-265 of the engine):
    the declarations the rule is compiled against ([None] when [decls]
    stays nil) and [schemaToPassOn].
    If the rule has a schema, use it, otherwise use the parent rule's. *)
Definition chooseSchema (r : Rule) (s : Schema) : (option EnvOption * Schema) + error :=
  if (0 <? length (Elements (Rule_Schema r)))%nat then
    match schemaToDeclarations (Rule_Schema r) with
    | inr err => inr err
    | inl decls => inl (Some decls, Rule_Schema r)
    end
  else if (0 <? length (Elements s))%nat then
    match schemaToDeclarations s with
    | inr err => inr err
    | inl decls => inl (Some decls, s)
    end
  else inl (None, mkSchema "" []).

(** [e.programs[id] = prg] *)
Definition storeProgram (e : CELEngine) (id : string) (prg : Program) : CELEngine :=
  mkCELEngine (rules e) (<[id := prg]> (programs e)).

(** [e.rules[r.ID] = r] *)
Definition storeRule (e : CELEngine) (r : Rule) : CELEngine :=
  mkCELEngine (<[ID r := r]> (rules e)) (programs e).

(** The loop of [addRuleWithSchema] over the child rules; [add e c] is the
    recursive call [e.addRuleWithSchema(c, schemaToPassOn)]. *)
Definition addChildren (add : CELEngine -> Rule -> CELEngine * option error)
  : list Rule -> CELEngine -> CELEngine * option error :=
  fix loop (cs : list Rule) (e : CELEngine) {struct cs} : CELEngine * option error :=
    match cs with
    | [] => (e, None)
    | c :: cs' =>
      match add e c with
      | (e, Some err) => (e, Some (AddingRule (ID c) err))
      | (e, None) => loop cs' e
      end
    end.

(** The engine as the call leaves it, and the error returned. *)
Fixpoint addRuleWithSchema (e : CELEngine) (r : Rule) (s : Schema) {struct r}
  : CELEngine * option error :=
  match chooseSchema r s with
  | inr err => (e, Some err)
  | inl (None, _) => (e, Some (NoValidSchema (ID r)))
  | inl (Some decls, schemaToPassOn) =>
    match NewEnv B decls with
    | inr err => (e, Some err)
    | inl env =>
      let compiled :=
        if negb (String.eqb (Expr r) "") then
          match compileRule env r with
          | inr err => inr (CompilingRule (ID r) err)
          | inl prg => inl (storeProgram e (ID r) prg)
          end
        else inl e in
      match compiled with
      | inr err => (e, Some err)
      | inl e =>
        addChildren (fun e c => addRuleWithSchema e c schemaToPassOn) (Rules r) e
      end
    end
  end.

(** AddRule compiles the rule and adds it to the engine, ready to be
    evaluated.  Any errors from the compilation will be returned. *)
Fixpoint AddRule (e : CELEngine) (rs : list Rule) : CELEngine * option error :=
  match rs with
  | [] => (e, None)
  | r :: rs' =>
    if (String.length (Trim (ID r) " ") =? 0)%nat
    then (e, Some (RequiredRuleID (Expr r)))
    else
      match addRuleWithSchema e r (Rule_Schema r) with
      | (e, Some err) => (e, Some err)
      | (e, None) => AddRule (storeRule e r) rs'
      end
  end.

(** Find a rule with the given ID. *)
Definition Rule_ (e : CELEngine) (id : string) : option Rule := rules e !! id.

(** Remove rule with the ID. *)
Definition RemoveRule (e : CELEngine) (id : string) : CELEngine :=
  mkCELEngine (delete id (rules e)) (delete id (programs e)).

Definition RuleCount (e : CELEngine) : Z := Z.of_nat (size (rules e)).

(** Execute the stored program and provide the results.  [prg] is what
    [e.programs[expr]] gave: nil ([None]) for an absent key, and a call on
    a nil program panics. *)
Definition evaluateProgram (data : Data) (prg : option Program)
  : exec (interface * option error) :=
  match prg with
  | None => Panic
  | Some prg =>
    match prg data with
    | (_, Some err) => Done (Nil, Some err)
    | (rawValue, None) => Done (rawValue, None)
    end
  end.

(** Calculate a numeric expression and return the result.  Returns an error
    if the expression evaluation result is not float64. *)
Definition Calculate (e : CELEngine) (data : Data) (expr : string) (schema : Schema)
  : CELEngine * exec (float * option error) :=
  let added :=
    match programs e !! expr with
    | Some prg => inl (e, Some prg)
    | None =>
      let r := mkRule expr expr schema Nil Nil Nil [] [] in
      match AddRule e [r] with
      | (e, Some err) => inr (e, err)
      | (e, None) => inl (e, programs e !! expr)
      end
    end in
  match added with
  | inr (e, err) => (e, Done (0%float, Some err))
  | inl (e, prg) =>
    match evaluateProgram data prg with
    | Panic => (e, Panic)
    | Done (_, Some err) => (e, Done (0%float, Some err))
    | Done (result, None) =>
      match assertFloat64 result with
      | (val, true) => (e, Done (val, None))
      | (_, false) => (e, Done (0%float, Some (NotFloat64 result)))
      end
    end
  end.

End Registration.

End cel.

(** * Package rules: the engine interface and its helpers (rules.go) *)
Module rules.

(** [Type]: the type of a data element in a schema.  A field of this
    interface type that is nil is [None]. *)
Inductive Type_ : Type :=
| String
| Int
| Float
| Any
| Bool
| Duration
| Timestamp
| List (ValueType : Type_)
| Map (KeyType ValueType : Type_).

(** DataElement defines a named variable in a schema. *)
Record DataElement : Type := mkDataElement {
  DataElement_ID : string;
  Name : string;
  Key : string;
  DataElement_Type : option Type_;
  Description : string
}.

Record Schema : Type := mkSchema {
  Schema_ID : string;
  Elements : list DataElement
}.

(** The Rule interface: a value of it is known by what its one method,
    [Expression()], returns. *)
Record Rule : Type := mkRule {
  Expression : string
}.

(** Simple implementation of the Rule interface. *)
Record SimpleRule : Type := mkSimpleRule {
  Expr : string
}.

Definition SimpleRule_Expression (s : SimpleRule) : Rule := mkRule (Expr s).

(** RuleSet contains a group of rules that will be evaluated together. *)
Record RuleSet : Type := mkRuleSet {
  RuleSet_ID : string;
  Rules : gmap string Rule;
  RuleSet_Schema : Schema;
  OutputType : option Type_
}.

(** Result of evaluating a rule. *)
Record Result : Type := mkResult {
  RuleSetID : string;
  RuleID : string;
  Pass : bool;
  Float64Value : float;
  Int64Value : Z;
  StringValue : string;
  ResultType : option Type_
}.

(** The zero value [Result{}]. *)
Definition Result_zero : Result := mkResult "" "" false 0%float 0 "" None.

Inductive error : Type :=
| External (msg : string)
    (* an error returned by an implementation of the interface *)
| RulesetNotFound (ruleSet : RuleSet)
    (* "Ruleset %v not found" *)
| ErrorEvaluatingRule (cause : error)
    (* "Error evaluating rule: %v" *).

(** The Engine interface.  An engine is a value of [E]; a method that can
    change the engine, or write to the data map it is given, returns them as
    it leaves them. *)
Class Engine (E : Type) : Type := {
  Engine_AddRuleSet : E -> RuleSet -> E * option error;
  Engine_AddOrReplaceRuleSet : E -> RuleSet -> E * option error;
  Engine_RuleSet : E -> string -> RuleSet * bool;
  Engine_EvaluateRule :
    E -> Data -> string -> string -> (E * Data) * (option Result * option error);
  Engine_EvaluateAll :
    E -> Data -> string -> (E * Data) * (option (list Result) * option error);
  Engine_EvaluateUntilTrue :
    E -> Data -> string -> (E * Data) * (Result * option error)
}.

Section Helpers.

Context {E : Type} `{Engine E}.

(** The order in which [for ruleID := range ruleSet.Rules] visits the
    keys of the map; Go leaves it unspecified. *)
Variable rangeKeys : gmap string Rule -> list string.

(** The loop of [EvaluateAll]. *)
Fixpoint evaluateAllLoop (ruleSetID : string) (ids : list string) (e : E) (data : Data)
  (results : list Result) : (E * Data) * exec (list Result * option error) :=
  match ids with
  | [] => ((e, data), Done (results, None))
  | ruleID :: ids' =>
    match Engine_EvaluateRule e data ruleSetID ruleID with
    | (w, (_, Some err)) => (w, Done (results, Some (ErrorEvaluatingRule err)))
    | (w, (None, None)) => (w, Panic)
    | ((e, data), (Some result, None)) =>
      evaluateAllLoop ruleSetID ids' e data (results ++ [result])
    end
  end.

(** Evaluate all rules in a rule set and return the true/false results of
    each rule.  Evaluation stops if an error happens, and partial results
    are returned ([None] is the nil slice). *)
Definition EvaluateAll (e : E) (data : Data) (ruleSetID : string)
  : (E * Data) * exec (option (list Result) * option error) :=
  let '(ruleSet, found) := Engine_RuleSet e ruleSetID in
  if negb found then ((e, data), Done (None, Some (RulesetNotFound ruleSet)))
  else
    match evaluateAllLoop ruleSetID (rangeKeys (Rules ruleSet)) e data [] with
    | (w, Panic) => (w, Panic)
    | (w, Done (results, err)) => (w, Done (Some results, err))
    end.

(** The loop of [EvaluateUntilTrue]. *)
Fixpoint evaluateUntilTrueLoop (ruleSetID : string) (ids : list string) (e : E)
  (data : Data) : (E * Data) * exec (Result * option error) :=
  match ids with
  | [] => ((e, data), Done (Result_zero, None))
  | ruleID :: ids' =>
    match Engine_EvaluateRule e data ruleSetID ruleID with
    | (w, (_, Some err)) => (w, Done (Result_zero, Some (ErrorEvaluatingRule err)))
    | (w, (None, None)) => (w, Panic)
    | ((e, data), (Some result, None)) =>
      if Pass result then ((e, data), Done (result, None))
      else evaluateUntilTrueLoop ruleSetID ids' e data
    end
  end.

(** Evaluate rules in the rule set, but stop as soon as a true rule is
    found.  The true rule is returned. *)
Definition EvaluateUntilTrue (e : E) (data : Data) (ruleSetID : string)
  : (E * Data) * exec (Result * option error) :=
  let '(ruleSet, found) := Engine_RuleSet e ruleSetID in
  if negb found then ((e, data), Done (Result_zero, Some (RulesetNotFound ruleSet)))
  else evaluateUntilTrueLoop ruleSetID (rangeKeys (Rules ruleSet)) e data.

End Helpers.

End rules.

(** * The schema inheritance policy, in the words of the specification *)
Module policy.
Import cel.

(** The schema that governs the rule [r] under the ambient schema [s]:
    the rule's own schema when that has an element, the ambient schema
    otherwise.  The rule is compiled against the schema that governs it,
    and that schema is the ambient schema of its child rules. *)
Definition governing (s : Schema) (r : Rule) : Schema :=
  match Elements (Rule_Schema r) with
  | [] => s
  | _ :: _ => Rule_Schema r
  end.

(** Every rule of the tree of [r], each with the schema that governs it
    when [s] is the ambient schema of [r]. *)
Fixpoint governed (r : Rule) (s : Schema) {struct r} : list (Rule * Schema) :=
  (r, governing s r) :: flat_map (fun c => governed c (governing s r)) (Rules r).

(** The environment that cel-go makes of the declarations of the schema
    [sch]; [None] when a type of the schema has no declaration or cel-go
    refuses the declarations. *)
Definition environment (B : Backend) (sch : Schema) : option (Env B) :=
  match schemaToDeclarations B sch with
  | inr _ => None
  | inl decls =>
    match NewEnv B decls with
    | inr _ => None
    | inl env => Some env
    end
  end.

(** The expression of [r] compiled against the schema [sch]: in the
    environment of the schema the expression is parsed, checked and made
    a program; [None] when a step fails. *)
Definition programAgainst (B : Backend) (sch : Schema) (r : Rule) : option Program :=
  match environment B sch with
  | None => None
  | Some env =>
    match Parse B env (Expr r) with
    | (_, Some _) => None
    | (ast, None) =>
      match Check B env ast with
      | (_, Some _) => None
      | (checked, None) =>
        match EnvProgram B env checked with
        | inr _ => None
        | inl prg => Some prg
        end
      end
    end
  end.

(** A rule can be registered under the schema that governs it when the
    schema has an element and an environment and the expression of the
    rule, if it has one, compiles against the schema. *)
Definition registrable (B : Backend) (g : Rule * Schema) : Prop :=
  Elements g.2 <> [] /\
  is_Some (environment B g.2) /\
  (Expr g.1 <> "" -> is_Some (programAgainst B g.2 g.1)).

End policy.

(** * What a call does, step by step *)
Module runs.
Import cel.

(** The evaluations of child rules that the child loop of [evaluate]
    makes, in their order: each child rule with what its evaluation
    returned.  The loop goes from a child to the next one on the data map
    that the child's evaluation left.  It ends after a child whose
    evaluation faults or returns an error, after a child with a non-nil
    result on which a stop-on-first-child option stops, and after a child
    with a nil result when such an option is set. *)
Definition childCalls (ev : Rule -> Data -> Evaluated) (opt : EvalOptions)
  : list Rule -> Data -> list (Rule * exec (option Result * option error)) :=
  fix calls (cs : list Rule) (data : Data) {struct cs} :=
    match cs with
    | [] => []
    | c :: cs' =>
      (c, (ev c data).2) ::
      match (ev c data).2 with
      | Done (Some r, None) =>
        if (StopFirstPositiveChild opt && Pass r) ||
           (StopFirstNegativeChild opt && negb (Pass r))
        then [] else calls cs' (ev c data).1
      | Done (None, None) =>
        if StopFirstPositiveChild opt || StopFirstNegativeChild opt
        then [] else calls cs' (ev c data).1
      | _ => []
      end
    end.

(** Whether the options admit a child result to the [Results] map of the
    parent: the child failed and [ReturnFail] is set, or it passed and
    [ReturnPass] is set. *)
Definition admits (opt : EvalOptions) (r : Result) : bool :=
  (negb (Pass r) && ReturnFail opt) || (Pass r && ReturnPass opt).

(** The map [m] after the admitted non-nil results of the calls have been
    put into it, one call after the other, each under the ID of its rule. *)
Definition admitAll (opt : EvalOptions)
  (calls : list (Rule * exec (option Result * option error)))
  (m : gmap string Result) : gmap string Result :=
  fold_left (fun m call =>
               match call with
               | (c, Done (Some r, None)) => if admits opt r then <[ID c := r]> m else m
               | _ => m
               end) calls m.


End runs.

(** * What the helpers of the package rules call, step by step *)
Module rules_runs.
Import rules.

Section Evaluations.

Context {E : Type} `{Engine E}.

(** What [EvaluateRule] returns for the rules [ids], evaluated one after
    the other, each on the engine and the data map as the evaluation
    before it left them. *)
Fixpoint ruleEvaluations (ruleSetID : string) (ids : list string) (e : E) (data : Data)
  : list (option Result * option error) :=
  match ids with
  | [] => []
  | ruleID :: ids' =>
    (Engine_EvaluateRule e data ruleSetID ruleID).2 ::
    ruleEvaluations ruleSetID ids'
      (Engine_EvaluateRule e data ruleSetID ruleID).1.1
      (Engine_EvaluateRule e data ruleSetID ruleID).1.2
  end.

End Evaluations.

(** An evaluation that returned a result that did not pass, and no
    error. *)
Definition notPassed (out : option Result * option error) : Prop :=
  exists r, out = (Some r, None) /\ Pass r = false.

End rules_runs.


(** * Example inputs *)
Module examples.
Import cel.

(** The reserved key, as an engine could fix it. *)
Definition selfKey : string := "self".

Definition tab : string := String.String (ascii_of_nat 9) EmptyString.

Definition schemaOf (t : rules_Type) (names : list string) : Schema :=
  mkSchema "" (map (fun x => mkDataElement x t) names).

Definition noSchema : Schema := mkSchema "" [].

(** A rule without schema, self object, action, meta or options. *)
Definition node (id expr : string) (children : list Rule) : Rule :=
  mkRule id expr noSchema Nil Nil Nil [] children.

(** [a + b] as cel-go computes it: the sum of two ints is an int (its
    [Value()] an int64), the sum of two doubles a double. *)
Definition sumProgram : Program := fun data =>
  match data !! "a", data !! "b" with
  | Some (IInt64 x), Some (IInt64 y) => (IInt64 (wrap64 (x + y)), None)
  | Some (IFloat64 x), Some (IFloat64 y) => (IFloat64 (x + y)%float, None)
  | _, _ => (Nil, Some (External "no such overload"))
  end.

(** [x > 5] as cel-go computes it over an int [x]. *)
Definition gt5Program : Program := fun data =>
  match data !! "x" with
  | Some (IInt64 x) => (IBool (5 <? x), None)
  | _ => (Nil, Some (External "no such overload"))
  end.

(** Programs that return a constant. *)
Definition constProgram (v : interface) : Program := fun _ => (v, None).

(** A program that reports whether the data map binds the reserved key. *)
Definition seesSelf : Program := fun data =>
  (IBool (bool_decide (is_Some (data !! selfKey))), None).

(** A backend that accepts every declaration and every expression; the
    program of [a+b] is [sumProgram], that of another expression gives
    [true]. *)
Definition testBackend : Backend :=
  mkBackend EnvOption string
    (fun decls => inl decls)
    (fun _ expr => (expr, None))
    (fun _ ast => (ast, None))
    (fun _ ast => inl (if String.eqb ast "a+b" then sumProgram
                       else constProgram (IBool true)))
    (fun _ => true)
    (fun _ => None).

(** The type that the declarations [env] give the name [x]. *)
Definition declared (env : EnvOption) (x : string) : option exprbp_Type :=
  match List.find (fun d => String.eqb (Decl_Name d) x) env with
  | Some d => Some (Decl_Type d)
  | None => None
  end.

(** The program of the variable [x] of the declared type [t]: the value
    of [x] in the data if it is of that type. *)
Definition varProgram (t : exprbp_Type) (x : string) : Program := fun data =>
  match data !! x, t with
  | Some (IInt64 v), decls_Int => (IInt64 v, None)
  | Some (IBool b), decls_Bool => (IBool b, None)
  | _, _ => (Nil, Some (External "no such overload"))
  end.

(** A backend whose expressions are variable names: an expression is
    checked against the declarations of the environment, and its program
    depends on the type they give the variable. *)
Definition varBackend : Backend :=
  mkBackend EnvOption string
    (fun decls => inl decls)
    (fun _ expr => (expr, None))
    (fun env ast =>
       match declared env ast with
       | Some _ => (ast, None)
       | None => (ast, Some (External "undeclared reference"))
       end)
    (fun env ast =>
       match declared env ast with
       | Some t => inl (varProgram t ast)
       | None => inr (External "unchecked expression")
       end)
    (fun _ => true)
    (fun _ => None).

Definition optsWith (depth : Z) (stopNeg stopPos stopNegChild : bool) : EvalOptions :=
  mkEvalOptions depth true true stopNeg stopPos stopNegChild.

(** An engine that holds one program, under the id [id]. *)
Definition engineWith (id : string) (prg : Program) : CELEngine :=
  mkCELEngine ∅ {[ id := prg ]}.

(** A rule like [rule] with the child rules [cs]. *)
Definition withRules (rule : Rule) (cs : list Rule) : Rule :=
  mkRule (ID rule) (Expr rule) (Rule_Schema rule) (Self rule) (Rule_Action rule)
         (Rule_Meta rule) (Opts rule) cs.

End examples.

(** * Example inputs for the package rules *)
Module rules_examples.
Import rules.

(** An engine that keeps its rule sets in a map and in which no rule ever
    passes: [EvaluateRule] gives a result with [Pass] false. *)
Definition neverPasses : Engine (gmap string RuleSet) := {|
  Engine_AddRuleSet e rs := (<[RuleSet_ID rs := rs]> e, None);
  Engine_AddOrReplaceRuleSet e rs := (<[RuleSet_ID rs := rs]> e, None);
  Engine_RuleSet e id :=
    match e !! id with
    | Some rs => (rs, true)
    | None => (mkRuleSet "" ∅ (mkSchema "" []) None, false)
    end;
  Engine_EvaluateRule e data ruleSetID ruleID :=
    ((e, data), (Some (mkResult ruleSetID ruleID false 0%float 0 "" None), None));
  Engine_EvaluateAll e data ruleSetID :=
    ((e, data), (None, Some (External "not implemented")));
  Engine_EvaluateUntilTrue e data ruleSetID :=
    ((e, data), (Result_zero, Some (External "not implemented")))
|}.

(** An engine like [neverPasses] whose [EvaluateRule] returns a nil result
    and a nil error. *)
Definition returnsNil : Engine (gmap string RuleSet) := {|
  Engine_AddRuleSet := @Engine_AddRuleSet _ neverPasses;
  Engine_AddOrReplaceRuleSet := @Engine_AddOrReplaceRuleSet _ neverPasses;
  Engine_RuleSet := @Engine_RuleSet _ neverPasses;
  Engine_EvaluateRule e data ruleSetID ruleID := ((e, data), (None, None));
  Engine_EvaluateAll := @Engine_EvaluateAll _ neverPasses;
  Engine_EvaluateUntilTrue := @Engine_EvaluateUntilTrue _ neverPasses
|}.

(** One order in which a range over a map can visit its keys. *)
Definition keysInOrder (m : gmap string Rule) : list string := (map_to_list m).*1.

Definition twoRules : RuleSet :=
  mkRuleSet "set" {[ "r1" := mkRule "x > 5"; "r2" := mkRule "x > 7" ]}
            (mkSchema "" []) None.

End rules_examples.

(** * Rule trees and schema types as a whole *)
Module trees.
Import cel.

(** The rule and every rule below it, a parent before its child rules. *)
Fixpoint subRules (r : Rule) : list Rule :=
  r :: flat_map subRules (Rules r).


End trees.

(** * Example inputs for the further properties *)
Module coverage_examples.
Import cel examples.

(** A program whose execution fails. *)
Definition failingProgram : Program := fun _ => (Nil, Some (External "no such key")).

(** A parent rule without expression over three child rules, and an engine
    in which the first child fails and the other two pass. *)
Definition threeChildren : Rule :=
  node "parent" "" [node "c1" "x > 5" []; node "c2" "x > 1" []; node "c3" "x > 2" []].

Definition threeChildrenEngine : CELEngine :=
  mkCELEngine ∅ {[ "c1" := constProgram (IBool false);
                   "c2" := constProgram (IBool true);
                   "c3" := constProgram (IBool true) ]}.

End coverage_examples.

(** * Example inputs for the further properties of the package rules *)
Module rules_coverage_examples.
Import rules rules_examples.


End rules_coverage_examples.

(** * Properties of the evaluation *)
Module cel_facts.
Import cel examples coverage_examples runs.

Section Evaluation_facts.

Variable SelfKey : string.

(** The options that govern a node: the inherited ones with the node's own
    overrides applied. *)
Local Abbreviation merged opt rule := (ApplyOptions opt (Opts rule)).

(** The recursive call of the child loop of [rule] at depth [n]. *)
Local Abbreviation child_call e rule n opt :=
  (fun c data => evaluate SelfKey e data c (int_add n 1) (merged opt rule)).

(** [evaluate], one level unfolded. *)
Lemma evaluate_unfold (e : CELEngine) (data : Data) (rule : Rule) (n : Z)
  (opt : EvalOptions) :
  evaluate SelfKey e data rule n opt =
  if MaxDepth opt <? n then (data, Done (None, None))
  else
    match evaluateOwn SelfKey e rule (newResult rule n) data with
    | (data, inr err) => (data, Done (None, Some err))
    | (data, inl pr) =>
      if StopIfParentNegative (merged opt rule) && negb (Pass pr)
      then (data, Done (Some pr, None))
      else evaluateChildren (child_call e rule n opt) (merged opt rule)
                            (Rules rule) pr data
    end.
Proof. destruct rule; reflexivity. Qed.

(** The child loop writes to the [Results] map of the parent's result and
    to nothing else of it. *)
Lemma evaluateChildren_frame (ev : Rule -> Data -> Evaluated) (opt : EvalOptions)
  (cs : list Rule) :
  forall (pr : Result) (data data' : Data) (r : Result) (err : option error),
    evaluateChildren ev opt cs pr data = (data', Done (Some r, err)) ->
    err = None /\ RuleID r = RuleID pr /\ Pass r = Pass pr /\ Value r = Value pr /\
    Action r = Action pr /\ Meta r = Meta pr /\ Depth r = Depth pr.
Proof.
  induction cs as [|c cs IH]; intros pr data data' r err Hrun; simpl in Hrun.
  - injection Hrun as _ <- <-. tauto.
  - destruct (ev c data) as [data1 [[res [cerr|]]|]]; try discriminate.
    set (pr1 := match res with
                | Some r0 => if (negb (Pass r0) && ReturnFail opt) || (Pass r0 && ReturnPass opt)
                             then setChild pr (ID c) r0 else pr
                | None => pr end) in *.
    assert (Hpr1 : RuleID pr1 = RuleID pr /\ Pass pr1 = Pass pr /\ Value pr1 = Value pr /\
                   Action pr1 = Action pr /\ Meta pr1 = Meta pr /\ Depth pr1 = Depth pr).
    { subst pr1. destruct res as [r0|]; [|tauto].
      destruct ((negb (Pass r0) && ReturnFail opt) || (Pass r0 && ReturnPass opt)); simpl; tauto. }
    destruct (stopOn (StopFirstPositiveChild opt) res true) as [[|]|]; try discriminate.
    + injection Hrun as _ <- <-. tauto.
    + destruct (stopOn (StopFirstNegativeChild opt) res false) as [[|]|]; try discriminate.
      * injection Hrun as _ <- <-. tauto.
      * apply IH in Hrun. destruct Hrun as (-> & -> & -> & -> & -> & -> & ->). tauto.
Qed.

(** The child loop never returns a nil result with a nil error. *)
Lemma evaluateChildren_not_nil (ev : Rule -> Data -> Evaluated) (opt : EvalOptions)
  (cs : list Rule) :
  forall (pr : Result) (data data' : Data),
    evaluateChildren ev opt cs pr data <> (data', Done (None, None)).
Proof.
  induction cs as [|c cs IH]; intros pr data data' Hrun; simpl in Hrun.
  - discriminate.
  - destruct (ev c data) as [data1 [[res [cerr|]]|]]; try discriminate.
    destruct (stopOn (StopFirstPositiveChild opt) res true) as [[|]|]; try discriminate.
    destruct (stopOn (StopFirstNegativeChild opt) res false) as [[|]|]; try discriminate.
    eapply IH, Hrun.
Qed.




(** The rule's own evaluation, for a rule with a stored program that runs
    without error: the program is run on the data map with the self object
    added, and that map is the one handed on. *)
Lemma evaluateOwn_program (e : CELEngine) (rule : Rule) (pr : Result) (data : Data)
  (program : Program) (v : interface) :
  programs e !! ID rule = Some program ->
  program (addSelf SelfKey data (Self rule)) = (v, None) ->
  evaluateOwn SelfKey e rule pr data =
  (addSelf SelfKey data (Self rule), inl (setValue pr v (fst (assertBool v)))).
Proof.
  intros Hprg Hrun. unfold evaluateOwn. rewrite Hprg, Hrun.
  destruct v as [|[|]| | | |]; reflexivity.
Qed.

(** The rule's own evaluation, for a rule whose program fails. *)
Lemma evaluateOwn_error (e : CELEngine) (rule : Rule) (pr : Result) (data : Data)
  (program : Program) (v : interface) (err : error) :
  programs e !! ID rule = Some program ->
  program (addSelf SelfKey data (Self rule)) = (v, Some err) ->
  evaluateOwn SelfKey e rule pr data =
  (addSelf SelfKey data (Self rule), inr (ErrorEvaluatingRule (ID rule) err)).
Proof. intros Hprg Hrun. unfold evaluateOwn. rewrite Hprg, Hrun. reflexivity. Qed.

(** The rule's own evaluation sets [Pass] and [Value] and nothing else. *)
Lemma evaluateOwn_frame (e : CELEngine) (rule : Rule) (pr pr' : Result)
  (data data' : Data) :
  evaluateOwn SelfKey e rule pr data = (data', inl pr') ->
  RuleID pr' = RuleID pr /\ Action pr' = Action pr /\ Meta pr' = Meta pr /\
  Depth pr' = Depth pr /\ Results pr' = Results pr.
Proof.
  unfold evaluateOwn. destruct (programs e !! ID rule) as [program|].
  - destruct (program _) as [v [err|]]; [discriminate|].
    destruct (assertBool v) as [b [|]]; intros [= _ <-]; simpl; tauto.
  - intros [= _ <-]. simpl. tauto.
Qed.

(** The assertion [v.(bool)] gives [true] for the boolean [true] alone. *)
Lemma assertBool_true (v : interface) : fst (assertBool v) = true <-> v = IBool true.
Proof. destruct v as [|[|]| | | |]; simpl; split; congruence. Qed.

(** A rule without child rules, with a stored program that runs without
    error, within [MaxDepth]: what [evaluate] returns. *)
Lemma evaluate_leaf_with_program (e : CELEngine) (data : Data) (rule : Rule) (n : Z)
  (opt : EvalOptions) (program : Program) (v : interface) :
  programs e !! ID rule = Some program ->
  program (addSelf SelfKey data (Self rule)) = (v, None) ->
  n <= MaxDepth opt -> Rules rule = [] ->
  evaluate SelfKey e data rule n opt =
  (addSelf SelfKey data (Self rule),
   Done (Some (setValue (newResult rule n) v (fst (assertBool v))), None)).
Proof.
  intros Hprg Hrun Hn Hleaf. apply Z.ltb_ge in Hn.
  rewrite evaluate_unfold, (evaluateOwn_program _ _ _ _ _ _ Hprg Hrun), Hn, Hleaf.
  destruct (StopIfParentNegative _ && _); reflexivity.
Qed.

(** C2.  For a rule with a stored program whose execution (on the data map
    with the self object added) succeeds with the value [v]: a result that
    [evaluate] returns has [Value] equal to [v], and [Pass] true if and
    only if [v] is the boolean [true], so a value that is not a boolean
    gives [Pass] false; within [MaxDepth], [evaluate] does not return
    nil without an error, and for a rule without child rules it returns
    that result. *)
Theorem evaluate_program_value (e : CELEngine) (data : Data) (rule : Rule) (n : Z)
  (opt : EvalOptions) (program : Program) (v : interface) :
  programs e !! ID rule = Some program ->
  program (addSelf SelfKey data (Self rule)) = (v, None) ->
  (forall data' r err,
      evaluate SelfKey e data rule n opt = (data', Done (Some r, err)) ->
      Value r = v /\ (Pass r = true <-> v = IBool true) /\
      ((forall b, v <> IBool b) -> Pass r = false)) /\
  (n <= MaxDepth opt ->
   forall data', evaluate SelfKey e data rule n opt <> (data', Done (None, None))) /\
  (n <= MaxDepth opt -> Rules rule = [] ->
   evaluate SelfKey e data rule n opt =
   (addSelf SelfKey data (Self rule),
    Done (Some (setValue (newResult rule n) v (fst (assertBool v))), None))).
Proof.
  intros Hprg Hrun.
  rewrite evaluate_unfold, (evaluateOwn_program _ _ _ _ _ _ Hprg Hrun).
  assert (Hnonbool : (forall b, v <> IBool b) -> fst (assertBool v) = false).
  { intros Hv. destruct v; try reflexivity. destruct (Hv b eq_refl). }
  split; [|split].
  - intros data' r err Hret.
    destruct (MaxDepth opt <? n); [discriminate|].
    assert (Hfields : Pass r = fst (assertBool v) /\ Value r = v).
    { destruct (StopIfParentNegative _ && _).
      - injection Hret as _ <- _. simpl. tauto.
      - apply evaluateChildren_frame in Hret. simpl in Hret. tauto. }
    destruct Hfields as [-> ->]. split; [reflexivity|].
    split; [apply assertBool_true | exact Hnonbool].
  - intros Hn data'. apply Z.ltb_ge in Hn. rewrite Hn.
    destruct (StopIfParentNegative _ && _); [discriminate|].
    apply evaluateChildren_not_nil.
  - intros Hn Hleaf. rewrite Hleaf.
    destruct (StopIfParentNegative _ && _); apply Z.ltb_ge in Hn; rewrite Hn; reflexivity.
Qed.

(** C5.  When the rule's own evaluation gives [Pass] false and the merged
    options have [StopIfParentNegative] set, [evaluate] returns the rule's
    own result at once: its [Results] map is empty, and no child rule is
    evaluated, that is, [evaluate] gives the same whatever the child
    rules are. *)
Theorem stop_if_parent_negative (e : CELEngine) (data data1 : Data) (rule : Rule)
  (n : Z) (opt : EvalOptions) (pr : Result) :
  n <= MaxDepth opt ->
  evaluateOwn SelfKey e rule (newResult rule n) data = (data1, inl pr) ->
  Pass pr = false ->
  StopIfParentNegative (merged opt rule) = true ->
  evaluate SelfKey e data rule n opt = (data1, Done (Some pr, None)) /\
  Results pr = ∅ /\
  (forall cs, evaluate SelfKey e data (withRules rule cs) n opt
              = (data1, Done (Some pr, None))).
Proof.
  intros Hn Hown Hfail Hstop. apply Z.ltb_ge in Hn. split; [|split].
  - rewrite evaluate_unfold, Hn, Hown, Hstop, Hfail. reflexivity.
  - apply evaluateOwn_frame in Hown. simpl in Hown. tauto.
  - intros cs. rewrite evaluate_unfold, Hn.
    change (evaluateOwn SelfKey e (withRules rule cs) (newResult (withRules rule cs) n) data)
      with (evaluateOwn SelfKey e rule (newResult rule n) data).
    rewrite Hown. simpl Opts. rewrite Hstop, Hfail. reflexivity.
Qed.

(** Whether the options admit a child result to the parent's [Results]
    map: (child failed and [ReturnFail]) or (child passed and
    [ReturnPass]). *)
Local Abbreviation admitted opt r :=
  ((negb (Pass r) && ReturnFail opt) || (Pass r && ReturnPass opt)).

(** One round of the child loop, for a child with a non-nil result. *)
Lemma evaluateChildren_step (ev : Rule -> Data -> Evaluated) (opt : EvalOptions)
  (c : Rule) (cs : list Rule) (pr : Result) (data data1 : Data) (r : Result) :
  ev c data = (data1, Done (Some r, None)) ->
  evaluateChildren ev opt (c :: cs) pr data =
  let pr1 := if admitted opt r then setChild pr (ID c) r else pr in
  if (StopFirstPositiveChild opt && Pass r) || (StopFirstNegativeChild opt && negb (Pass r))
  then (data1, Done (Some pr1, None))
  else evaluateChildren ev opt cs pr1 data1.
Proof.
  intros Hc. simpl. rewrite Hc. unfold stopOn. simpl.
  destruct (StopFirstPositiveChild opt), (StopFirstNegativeChild opt), (Pass r);
    reflexivity.
Qed.

(** One round of the child loop, for a child with a nil result, when
    neither stop-on-first-child option is set: the child is skipped. *)
Lemma evaluateChildren_nil_skipped (ev : Rule -> Data -> Evaluated) (opt : EvalOptions)
  (c : Rule) (cs : list Rule) (pr : Result) (data data1 : Data) :
  ev c data = (data1, Done (None, None)) ->
  StopFirstPositiveChild opt = false ->
  StopFirstNegativeChild opt = false ->
  evaluateChildren ev opt (c :: cs) pr data = evaluateChildren ev opt cs pr data1.
Proof. intros Hc Hpos Hneg. simpl. rewrite Hc, Hpos, Hneg. reflexivity. Qed.

(** One round of the child loop, for a child with a nil result, when a
    stop-on-first-child option is set: [res.Pass] is read through the nil
    pointer. *)
Lemma evaluateChildren_nil_faults (ev : Rule -> Data -> Evaluated) (opt : EvalOptions)
  (c : Rule) (cs : list Rule) (pr : Result) (data data1 : Data) :
  ev c data = (data1, Done (None, None)) ->
  StopFirstPositiveChild opt || StopFirstNegativeChild opt = true ->
  evaluateChildren ev opt (c :: cs) pr data = (data1, Panic).
Proof.
  intros Hc Hstop. simpl. rewrite Hc.
  destruct (StopFirstPositiveChild opt), (StopFirstNegativeChild opt);
    try discriminate; reflexivity.
Qed.

(** The rules of the calls of the child loop are the first child rules. *)
Lemma childCalls_prefix (ev : Rule -> Data -> Evaluated) (opt : EvalOptions)
  (cs : list Rule) :
  forall data, exists rest : list Rule,
    cs = ((childCalls ev opt cs data).*1 ++ rest)%list.
Proof.
  induction cs as [|c cs IH]; intros data; simpl; [exists []; reflexivity|].
  assert (Hstop : exists rest : list Rule, c :: cs = (c :: rest)%list)
    by (exists cs; reflexivity).
  assert (Hgo : forall d, exists rest : list Rule,
             c :: cs = (c :: (childCalls ev opt cs d).*1 ++ rest)%list).
  { intros d. destruct (IH d) as [rest Hrest]. exists rest. f_equal. exact Hrest. }
  destruct (ev c data) as [data1 [[[r0|] [cerr|]]|]]; simpl; try exact Hstop.
  - destruct ((StopFirstPositiveChild opt && Pass r0) ||
              (StopFirstNegativeChild opt && negb (Pass r0))); [exact Hstop | apply Hgo].
  - destruct (StopFirstPositiveChild opt || StopFirstNegativeChild opt);
      [exact Hstop | apply Hgo].
Qed.

(** A call of the child loop is an evaluation of a child rule. *)
Lemma childCalls_evaluations (ev : Rule -> Data -> Evaluated) (opt : EvalOptions)
  (cs : list Rule) :
  forall data c out,
    (c, out) ∈ childCalls ev opt cs data ->
    c ∈ cs /\ exists d, (ev c d).2 = out.
Proof.
  induction cs as [|c0 cs IH]; intros data c out Hin; simpl in Hin; [inversion Hin|].
  apply elem_of_cons in Hin. destruct Hin as [[= -> ->]|Hin].
  - split; [left | exists data; reflexivity].
  - assert (Hrest : forall d, (c, out) ∈ childCalls ev opt cs d ->
                              c ∈ c0 :: cs /\ exists d', (ev c d').2 = out).
    { intros d Hd. destruct (IH d c out Hd) as [Hc Hev]. split; [right; exact Hc | exact Hev]. }
    destruct (ev c0 data) as [data1 [[[r0|] [cerr|]]|]]; simpl in Hin;
      try (inversion Hin; fail).
    + destruct ((StopFirstPositiveChild opt && Pass r0) ||
                (StopFirstNegativeChild opt && negb (Pass r0)));
        [inversion Hin | exact (Hrest _ Hin)].
    + destruct (StopFirstPositiveChild opt || StopFirstNegativeChild opt);
        [inversion Hin | exact (Hrest _ Hin)].
Qed.

(** The [Results] map that the child loop returns is the map it started
    from with the admitted non-nil results of its calls put into it. *)
Lemma evaluateChildren_admitAll (ev : Rule -> Data -> Evaluated) (opt : EvalOptions)
  (cs : list Rule) :
  forall (pr : Result) (data data' : Data) (r : Result),
    evaluateChildren ev opt cs pr data = (data', Done (Some r, None)) ->
    Results r = admitAll opt (childCalls ev opt cs data) (Results pr).
Proof.
  induction cs as [|c cs IH]; intros pr data data' r Hrun; simpl in Hrun |- *.
  - injection Hrun as _ <-. reflexivity.
  - destruct (ev c data) as [data1 [[[r0|] [cerr|]]|]]; simpl in Hrun |- *;
      try discriminate.
    + unfold stopOn in Hrun. simpl in Hrun. unfold admits.
      destruct (StopFirstPositiveChild opt), (StopFirstNegativeChild opt), (Pass r0);
        simpl in Hrun |- *;
        first [ injection Hrun as _ <-;
                destruct (ReturnFail opt), (ReturnPass opt); reflexivity
              | rewrite (IH _ _ _ _ Hrun);
                destruct (ReturnFail opt), (ReturnPass opt); reflexivity ].
    + destruct (StopFirstPositiveChild opt), (StopFirstNegativeChild opt);
        simpl in Hrun |- *; try discriminate.
      exact (IH _ _ _ _ Hrun).
Qed.

(** Putting results into a map leaves the keys of other rules alone. *)
Lemma admitAll_other (opt : EvalOptions)
  (calls : list (Rule * exec (option Result * option error))) :
  forall (m : gmap string Result) (k : string),
    k ∉ map (fun call => ID call.1) calls ->
    admitAll opt calls m !! k = m !! k.
Proof.
  unfold admitAll.
  induction calls as [|[c out] calls IH]; intros m k Hk; simpl; [reflexivity|].
  simpl in Hk. apply not_elem_of_cons in Hk. destruct Hk as [Hne Hk].
  rewrite (IH _ k Hk).
  destruct out as [[[r|] [err|]]|]; try reflexivity.
  destruct (admits opt r); [|reflexivity].
  apply lookup_insert_ne. congruence.
Qed.

(** What the map holds under the ID of a rule that was called once. *)
Lemma admitAll_lookup (opt : EvalOptions)
  (calls : list (Rule * exec (option Result * option error))) :
  forall (m : gmap string Result) (c : Rule) (r : Result),
    NoDup (map (fun call => ID call.1) calls) ->
    (c, Done (Some r, None)) ∈ calls ->
    admitAll opt calls m !! ID c = if admits opt r then Some r else m !! ID c.
Proof.
  induction calls as [|[c0 out] calls IH]; intros m c r Hnodup Hin; [inversion Hin|].
  simpl in Hnodup. apply NoDup_cons in Hnodup. destruct Hnodup as [Hfresh Hnodup].
  apply elem_of_cons in Hin. destruct Hin as [[= <- <-]|Hin].
  - change (admitAll opt ((c, Done (Some r, None)) :: calls) m)
      with (admitAll opt calls (if admits opt r then <[ID c := r]> m else m)).
    rewrite (admitAll_other opt calls _ (ID c) Hfresh).
    destruct (admits opt r); [apply lookup_insert_eq | reflexivity].
  - assert (Hne : ID c0 <> ID c).
    { intros Heq. apply Hfresh. rewrite Heq.
      apply (list_elem_of_fmap_2 (fun call => ID call.1) calls (c, Done (Some r, None)) Hin). }
    assert (Hstep : forall m0, admitAll opt ((c0, out) :: calls) m
                               = admitAll opt calls m0 ->
                               m0 !! ID c = m !! ID c ->
                               admitAll opt ((c0, out) :: calls) m !! ID c
                               = if admits opt r then Some r else m !! ID c).
    { intros m0 -> Hm0. rewrite (IH m0 c r Hnodup Hin), Hm0. reflexivity. }
    destruct out as [[[r0|] [err|]]|]; try (apply (Hstep m); reflexivity).
    destruct (admits opt r0) eqn:Hadm.
    + apply (Hstep (<[ID c0 := r0]> m)).
      * unfold admitAll. simpl. rewrite Hadm. reflexivity.
      * apply lookup_insert_ne. exact Hne.
    + apply (Hstep m); [|reflexivity]. unfold admitAll. simpl. rewrite Hadm. reflexivity.
Qed.

(** C4.  For a parent rule and a result [pr] that [evaluate] returns for
    it.  The [Results] map of [pr] is the empty map with the non-nil
    results of the recursive evaluations of child rules put into it, in
    the order of the evaluations, each under the ID of its child rule, and
    each if and only if the merged options admit it: (the result failed
    and [ReturnFail] is set) or (it passed and [ReturnPass] is set).  So,
    the IDs of the child rules being distinct, for a child rule whose
    recursive evaluation returned the non-nil result [r], the map holds [r]
    under the ID of the child if and only if that condition holds of [r].
    The recursive evaluations are those that the child loop makes, none
    when [StopIfParentNegative] ends the call before the loop; each is an
    evaluation of a child rule one level deeper with the merged options. *)
Theorem child_result_admission (e : CELEngine) (data data' : Data) (rule : Rule)
  (n : Z) (opt : EvalOptions) (pr : Result) :
  evaluate SelfKey e data rule n opt = (data', Done (Some pr, None)) ->
  let calls :=
    if StopIfParentNegative (merged opt rule) && negb (Pass pr) then []
    else childCalls (child_call e rule n opt) (merged opt rule) (Rules rule)
                    (evaluateOwn SelfKey e rule (newResult rule n) data).1 in
  Results pr = admitAll (merged opt rule) calls ∅ /\
  (NoDup (map ID (Rules rule)) ->
   forall c r, (c, Done (Some r, None)) ∈ calls ->
     (Results pr !! ID c = Some r <->
      (Pass r = false /\ ReturnFail (merged opt rule) = true) \/
      (Pass r = true /\ ReturnPass (merged opt rule) = true))) /\
  (forall c out, (c, out) ∈ calls ->
     c ∈ Rules rule /\
     exists d, (evaluate SelfKey e d c (int_add n 1) (merged opt rule)).2 = out).
Proof.
  intros Hrun calls.
  assert (Hcalls : Results pr = admitAll (merged opt rule) calls ∅ /\
                   exists d rest,
                     Rules rule = (calls.*1 ++ rest)%list /\
                     (calls = [] \/
                      calls = childCalls (child_call e rule n opt) (merged opt rule)
                                         (Rules rule) d)).
  { subst calls. revert Hrun. rewrite evaluate_unfold.
    destruct (MaxDepth opt <? n); [discriminate|].
    destruct (evaluateOwn SelfKey e rule (newResult rule n) data) as [data1 [pr0|oerr]] eqn:Hown;
      [|discriminate].
    apply evaluateOwn_frame in Hown. destruct Hown as (_ & _ & _ & _ & Hempty).
    simpl in Hempty. simpl.
    destruct (StopIfParentNegative (merged opt rule) && negb (Pass pr0)) eqn:Hstop.
    - intros [= _ <-]. rewrite Hstop. split; [exact Hempty|].
      exists data1, (Rules rule). split; [reflexivity | left; reflexivity].
    - intros Hloop. pose proof (evaluateChildren_frame _ _ _ _ _ _ _ _ Hloop) as Hframe.
      destruct Hframe as (_ & _ & Hpass & _). rewrite Hpass, Hstop.
      split.
      + rewrite (evaluateChildren_admitAll _ _ _ _ _ _ _ Hloop), Hempty. reflexivity.
      + destruct (childCalls_prefix (child_call e rule n opt) (merged opt rule)
                    (Rules rule) data1) as [rest Hrest].
        exists data1, rest. split; [exact Hrest | right; reflexivity]. }
  destruct Hcalls as (Hall & d & rest & Hprefix & Hshape).
  split; [exact Hall|]. split.
  - intros Hnodup c r Hin.
    assert (Hnodup' : NoDup (map (fun call => ID call.1) calls)).
    { rewrite Hprefix, map_app in Hnodup. apply NoDup_app in Hnodup.
      destruct Hnodup as [Hnodup _].
      replace (map (fun call => ID call.1) calls) with (map ID calls.*1);
        [exact Hnodup|].
      clear. induction calls as [|call calls IH]; simpl; [reflexivity|].
      f_equal. exact IH. }
    rewrite Hall, (admitAll_lookup _ calls ∅ c r Hnodup' Hin), lookup_empty.
    unfold admits.
    destruct (Pass r), (ReturnFail (merged opt rule)), (ReturnPass (merged opt rule));
      simpl; split; intros Hx; try reflexivity; try discriminate;
      try (left; split; reflexivity); try (right; split; reflexivity);
      try (destruct Hx as [[? ?]|[? ?]]; discriminate).
  - intros c out Hin. destruct Hshape as [Hnil|Hshape].
    + rewrite Hnil in Hin. inversion Hin.
    + rewrite Hshape in Hin.
      exact (childCalls_evaluations _ _ _ _ _ _ Hin).
Qed.

(** What the child loop leaves in the [Results] map: what was there, and
    results that the options admit, each under the ID of a child rule. *)
Lemma evaluateChildren_results (ev : Rule -> Data -> Evaluated) (opt : EvalOptions)
  (cs : list Rule) :
  forall (pr : Result) (data data' : Data) (r : Result),
    evaluateChildren ev opt cs pr data = (data', Done (Some r, None)) ->
    forall k x, Results r !! k = Some x ->
      Results pr !! k = Some x \/
      (admitted opt x = true /\ exists c, c ∈ cs /\ ID c = k).
Proof.
  induction cs as [|c cs IH]; intros pr data data' r Hrun k x Hk; simpl in Hrun.
  - injection Hrun as _ <-. left. exact Hk.
  - destruct (ev c data) as [data1 [[res [cerr|]]|]]; try discriminate.
    set (pr1 := match res with
                | Some r0 => if admitted opt r0 then setChild pr (ID c) r0 else pr
                | None => pr end) in *.
    assert (Hpr1 : Results pr1 !! k = Some x ->
                   Results pr !! k = Some x \/
                   (admitted opt x = true /\ exists c0, c0 ∈ c :: cs /\ ID c0 = k)).
    { subst pr1. destruct res as [r0|]; [|tauto].
      destruct (admitted opt r0) eqn:Hadm; [|tauto]. simpl.
      destruct (decide (ID c = k)) as [<-|Hne].
      - rewrite lookup_insert_eq. intros [= <-]. right. split; [exact Hadm|].
        exists c. split; [left | reflexivity].
      - rewrite lookup_insert_ne by exact Hne. tauto. }
    destruct (stopOn (StopFirstPositiveChild opt) res true) as [[|]|]; try discriminate.
    + injection Hrun as _ <-. apply Hpr1, Hk.
    + destruct (stopOn (StopFirstNegativeChild opt) res false) as [[|]|]; try discriminate.
      * injection Hrun as _ <-. apply Hpr1, Hk.
      * destruct (IH _ _ _ _ Hrun k x Hk) as [Hin|(Hadm & c0 & Hc0 & Hid)].
        -- apply Hpr1, Hin.
        -- right. split; [exact Hadm|]. exists c0. split; [right; exact Hc0 | exact Hid].
Qed.

(** The [Results] map of a result that [evaluate] returns holds nothing but
    results that the merged options admit, each under the ID of a child
    rule of the rule evaluated. *)
Lemma evaluate_results_admitted (e : CELEngine) (data data' : Data) (rule : Rule)
  (n : Z) (opt : EvalOptions) (r : Result) :
  evaluate SelfKey e data rule n opt = (data', Done (Some r, None)) ->
  forall k x, Results r !! k = Some x ->
    admitted (merged opt rule) x = true /\ exists c, c ∈ Rules rule /\ ID c = k.
Proof.
  rewrite evaluate_unfold. destruct (MaxDepth opt <? n); [discriminate|].
  destruct (evaluateOwn SelfKey e rule (newResult rule n) data) as [data1 [pr|err]] eqn:Hown;
    [|discriminate].
  apply evaluateOwn_frame in Hown. destruct Hown as (_ & _ & _ & _ & Hempty).
  simpl in Hempty.
  destruct (StopIfParentNegative _ && _).
  - intros [= _ <-] k x Hk. rewrite Hempty, lookup_empty in Hk. discriminate.
  - intros Hrun k x Hk.
    destruct (evaluateChildren_results _ _ _ _ _ _ _ Hrun k x Hk) as [Hin|Hadm];
      [|exact Hadm].
    rewrite Hempty, lookup_empty in Hin. discriminate.
Qed.

(** What [addSelf] does to the data map: the reserved key is bound to the
    self object when there is one and is absent when there is none, and
    the other keys are left as they are. *)
Lemma addSelf_lookup (data : Data) (self : interface) :
  (self <> Nil -> addSelf SelfKey data self !! SelfKey = Some self) /\
  (self = Nil -> addSelf SelfKey data self !! SelfKey = None) /\
  (forall k, k <> SelfKey -> addSelf SelfKey data self !! k = data !! k).
Proof.
  unfold addSelf. split; [|split].
  - intros Hset. destruct self; try (destruct (Hset eq_refl)); apply lookup_insert_eq.
  - intros ->. apply lookup_delete_eq.
  - intros k Hk. destruct self; simpl;
      first [apply lookup_delete_ne | apply lookup_insert_ne]; congruence.
Qed.

(** C9.  For a rule with a stored program, the program is executed on the
    caller's data map as [addSelf] leaves it, [d] below: in [d] the
    reserved key is bound to the rule's [Self] when [Self] is set and is
    absent when [Self] is nil, whatever the map held under that key before
    (a self object left by a sibling's evaluation included), and every other
    key is as in the caller's map.  That the program runs on [d], and that
    [d] is the map the caller is left with, shows in what [evaluate]
    returns: the program's error on [d], or for a rule without child rules
    the program's value on [d]. *)
Theorem self_injection (e : CELEngine) (data : Data) (rule : Rule) (n : Z)
  (opt : EvalOptions) (program : Program) :
  programs e !! ID rule = Some program ->
  n <= MaxDepth opt ->
  let d := addSelf SelfKey data (Self rule) in
  (Self rule <> Nil -> d !! SelfKey = Some (Self rule)) /\
  (Self rule = Nil -> d !! SelfKey = None) /\
  (forall k, k <> SelfKey -> d !! k = data !! k) /\
  (forall pr, evaluateOwn SelfKey e rule pr data =
     (d, match program d with
         | (_, Some err) => inr (ErrorEvaluatingRule (ID rule) err)
         | (v, None) => inl (setValue pr v (fst (assertBool v)))
         end)) /\
  (forall v err, program d = (v, Some err) ->
     evaluate SelfKey e data rule n opt =
     (d, Done (None, Some (ErrorEvaluatingRule (ID rule) err)))) /\
  (forall v, program d = (v, None) -> Rules rule = [] ->
     evaluate SelfKey e data rule n opt =
     (d, Done (Some (setValue (newResult rule n) v (fst (assertBool v))), None))).
Proof.
  intros Hprg Hn d.
  destruct (addSelf_lookup data (Self rule)) as (Hset & Hunset & Hframe).
  repeat (split; [assumption|]). split; [|split].
  - intros pr. destruct (program d) as [v [err|]] eqn:Hrun.
    + exact (evaluateOwn_error e rule pr data program v err Hprg Hrun).
    + exact (evaluateOwn_program e rule pr data program v Hprg Hrun).
  - intros v err Hrun. apply Z.ltb_ge in Hn.
    rewrite evaluate_unfold, Hn, (evaluateOwn_error _ _ _ _ _ _ _ Hprg Hrun).
    reflexivity.
  - intros v Hrun Hleaf.
    exact (evaluate_leaf_with_program e data rule n opt program v Hprg Hrun Hn Hleaf).
Qed.

End Evaluation_facts.

(** ** The properties at concrete inputs *)

(** C1: the code at the failing input.  A parent rule with one child rule,
    evaluated at depth 0 with [MaxDepth] 0: the child's evaluation, at depth
    1, returns nil; with [StopFirstPositiveChild] set, and likewise with
    [StopFirstNegativeChild] set, the parent's evaluation faults on
    [res.Pass]; with neither set the nil child is skipped. *)
Lemma evaluate_nil_child_faults :
  let child := node "child" "" [] in
  let parent := node "parent" "" [child] in
  evaluate selfKey NewEngine ∅ child (int_add 0 1) (optsWith 0 false true false)
    = (∅, Done (None, None)) /\
  evaluate selfKey NewEngine ∅ parent 0 (optsWith 0 false true false) = (∅, Panic) /\
  evaluate selfKey NewEngine ∅ parent 0 (optsWith 0 false false true) = (∅, Panic) /\
  evaluate selfKey NewEngine ∅ parent 0 (optsWith 0 false false false)
    = (∅, Done (Some (setValue (newResult parent 0) (IBool true) true), None)).
Proof. repeat split. Qed.

(** C2 at the rule [r1] with the expression [x > 5]: the data [x = 10]
    gives [Pass] true and [Value] true. *)
Lemma evaluate_program_value_witness :
  let e := engineWith "r1" gt5Program in
  let data : Data := {[ "x" := IInt64 10 ]} in
  let rule := node "r1" "x > 5" [] in
  programs e !! ID rule = Some gt5Program /\
  gt5Program (addSelf selfKey data (Self rule)) = (IBool true, None) /\
  evaluate selfKey e data rule 0 (optsWith 5 false false false) =
  (data, Done (Some (mkResult "r1" true (IBool true) Nil Nil 0 ∅), None)).
Proof.
  intros e data rule.
  assert (Hprg : programs e !! ID rule = Some gt5Program) by reflexivity.
  assert (Hrun : gt5Program (addSelf selfKey data (Self rule)) = (IBool true, None))
    by reflexivity.
  split; [exact Hprg|]. split; [exact Hrun|].
  refine (eq_trans
    (proj2 (proj2 (evaluate_program_value selfKey e data rule 0
                     (optsWith 5 false false false) gt5Program (IBool true) Hprg Hrun))
           _ eq_refl) _).
  - simpl. lia.
  - reflexivity.
Defined.



(** C4 at the parent rule [threeChildren], whose first child fails and
    whose other two children pass, with [ReturnPass] set and [ReturnFail]
    not: the [Results] map of the parent holds the results of the second
    and third child under their IDs and nothing under the ID of the
    first. *)
Lemma child_result_admission_witness :
  let opt := mkEvalOptions 5 true false false false false in
  let c1 := node "c1" "x > 5" [] in
  let c2 := node "c2" "x > 1" [] in
  let r1 := mkResult "c1" false (IBool false) Nil Nil 1 ∅ in
  let r2 := mkResult "c2" true (IBool true) Nil Nil 1 ∅ in
  let r3 := mkResult "c3" true (IBool true) Nil Nil 1 ∅ in
  let pr := mkResult "parent" true (IBool true) Nil Nil 0
                     {[ "c2" := r2; "c3" := r3 ]} in
  evaluate selfKey threeChildrenEngine ∅ threeChildren 0 opt
    = (∅, Done (Some pr, None)) /\
  (evaluate selfKey threeChildrenEngine ∅ c1 1 opt).2 = Done (Some r1, None) /\
  (evaluate selfKey threeChildrenEngine ∅ c2 1 opt).2 = Done (Some r2, None) /\
  Results pr !! "c2" = Some r2 /\
  Results pr !! "c1" <> Some r1 /\
  Results pr !! "c1" = None.
Proof.
  intros opt c1 c2 r1 r2 r3 pr.
  assert (Hrun : evaluate selfKey threeChildrenEngine ∅ threeChildren 0 opt
                 = (∅, Done (Some pr, None))) by (vm_compute; reflexivity).
  split; [exact Hrun|].
  split; [vm_compute; reflexivity|].
  split; [vm_compute; reflexivity|].
  destruct (child_result_admission selfKey threeChildrenEngine ∅ ∅ threeChildren 0 opt
              pr Hrun) as (Hall & Hiff & _).
  assert (Hnodup : NoDup (map ID (Rules threeChildren))).
  { apply (bool_decide_unpack _). vm_compute. exact I. }
  split; [|split].
  - apply (Hiff Hnodup c2 r2).
    + apply (list_elem_of_lookup_2 _ 1%nat). vm_compute. reflexivity.
    + right. split; reflexivity.
  - intros Hin. apply (Hiff Hnodup c1 r1) in Hin.
    + destruct Hin as [[_ Hfail]|[Hpass _]]; discriminate.
    + apply (list_elem_of_lookup_2 _ 0%nat). vm_compute. reflexivity.
  - rewrite Hall. vm_compute. reflexivity.
Defined.

(** C5 at the rule [r1] with the expression [x > 5], the data [x = 3] and
    a child rule: with [StopIfParentNegative] the result has no child. *)
Lemma stop_if_parent_negative_witness :
  let e := engineWith "r1" gt5Program in
  let data : Data := {[ "x" := IInt64 3 ]} in
  let rule := node "r1" "x > 5" [node "child" "" []] in
  let opt := optsWith 5 true false false in
  let pr := mkResult "r1" false (IBool false) Nil Nil 0 ∅ in
  evaluateOwn selfKey e rule (newResult rule 0) data = (data, inl pr) /\
  evaluate selfKey e data rule 0 opt = (data, Done (Some pr, None)) /\
  Results pr = ∅.
Proof.
  intros e data rule opt pr.
  assert (Hown : evaluateOwn selfKey e rule (newResult rule 0) data = (data, inl pr))
    by reflexivity.
  split; [exact Hown|].
  assert (Hn : 0 <= MaxDepth opt) by (simpl; lia).
  destruct (stop_if_parent_negative selfKey e data data rule 0 opt pr Hn Hown
              eq_refl eq_refl) as (Hret & Hempty & _).
  split; assumption.
Defined.

(** C9 at a rule with a self object and a program that looks for the
    reserved key, on a data map that does not bind the key. *)
Lemma self_injection_witness :
  let e := engineWith "r1" seesSelf in
  let data : Data := {[ "x" := IInt64 3 ]} in
  let rule := mkRule "r1" "has(self)" noSchema (IString "me") Nil Nil [] [] in
  programs e !! ID rule = Some seesSelf /\
  addSelf selfKey data (Self rule) !! selfKey = Some (IString "me") /\
  addSelf selfKey data (Self rule) !! "x" = Some (IInt64 3) /\
  evaluate selfKey e data rule 0 (optsWith 5 false false false) =
  (addSelf selfKey data (Self rule),
   Done (Some (mkResult "r1" true (IBool true) Nil Nil 0 ∅), None)).
Proof.
  intros e data rule.
  assert (Hprg : programs e !! ID rule = Some seesSelf) by reflexivity.
  assert (Hn : 0 <= MaxDepth (optsWith 5 false false false)) by (simpl; lia).
  destruct (self_injection selfKey e data rule 0 (optsWith 5 false false false)
              seesSelf Hprg Hn) as (Hset & _ & Hframe & _ & _ & Hleaf).
  split; [exact Hprg|]. split; [apply Hset; discriminate|].
  split; [rewrite Hframe; [reflexivity | discriminate]|].
  exact (Hleaf (IBool true) eq_refl eq_refl).
Defined.

(** A self object does not pass from one child rule to the next: of two
    child rules evaluated on one data map, the first with a self object and
    the second without, the second's program does not see the key. *)
Lemma no_stale_self_between_siblings :
  let e := mkCELEngine ∅ {[ "first" := seesSelf; "second" := seesSelf ]} in
  let first := mkRule "first" "has(self)" noSchema (IString "me") Nil Nil [] [] in
  let second := node "second" "has(self)" [] in
  exists data' r,
    evaluate selfKey e ∅ (node "parent" "" [first; second]) 0
             (optsWith 5 false false false) = (data', Done (Some r, None)) /\
    Value <$> (Results r !! "first") = Some (IBool true) /\
    Value <$> (Results r !! "second") = Some (IBool false) /\
    data' !! selfKey = None.
Proof. do 2 eexists. repeat split. Qed.

(** ** Properties of the registration *)

Section Registration_facts.

Variable B : Backend.

(** [addRuleWithSchema], one level unfolded. *)
Lemma addRuleWithSchema_unfold (e : CELEngine) (r : Rule) (s : Schema) :
  addRuleWithSchema B e r s =
  match chooseSchema B r s with
  | inr err => (e, Some err)
  | inl (None, _) => (e, Some (NoValidSchema (ID r)))
  | inl (Some decls, schemaToPassOn) =>
    match NewEnv B decls with
    | inr err => (e, Some err)
    | inl env =>
      match (if negb (String.eqb (Expr r) "") then
               match compileRule B env r with
               | inr err => inr (CompilingRule (ID r) err)
               | inl prg => inl (storeProgram e (ID r) prg)
               end
             else inl e) with
      | inr err => (e, Some err)
      | inl e =>
        addChildren (fun e c => addRuleWithSchema B e c schemaToPassOn) (Rules r) e
      end
    end
  end.
Proof. destruct r; reflexivity. Qed.

(** [addRuleWithSchema] writes to the program store alone: the rule index
    of the engine is as before, on success and on failure. *)
Lemma addRuleWithSchema_rules (r : Rule) :
  forall (e : CELEngine) (s : Schema), rules (addRuleWithSchema B e r s).1 = rules e.
Proof.
  induction r as [id expr sch self action meta opts cs IH] using Rule_tree_ind.
  intros e s. rewrite addRuleWithSchema_unfold.
  destruct (chooseSchema B _ s) as [[[decls|] pass]|err]; try reflexivity.
  destruct (NewEnv B decls) as [env|err]; [|reflexivity].
  assert (Hloop : forall e0, rules (addChildren
            (fun e c => addRuleWithSchema B e c pass) cs e0).1 = rules e0).
  { clear -IH. induction cs as [|c cs IHcs]; intros e0; simpl; [reflexivity|].
    apply Forall_cons_1 in IH. destruct IH as [Hc Hcs].
    specialize (Hc e0 pass).
    destruct (addRuleWithSchema B e0 c pass) as [e1 [err|]]; simpl in *.
    - exact Hc.
    - rewrite (IHcs Hcs e1). exact Hc. }
  simpl. destruct (negb (String.eqb expr "")); simpl.
  - destruct (compileRule B env _) as [prg|err]; simpl; [|reflexivity].
    rewrite Hloop. reflexivity.
  - apply Hloop.
Qed.

(** Trimming spaces from the left leaves nothing exactly when there are
    only spaces. *)
Lemma trimLeft_space_nil (l : list ascii) :
  trimLeft " " l = [] <-> Forall (fun c => c = " "%char) l.
Proof.
  induction l as [|c l IH]; simpl.
  - split; [constructor | reflexivity].
  - unfold inCutset. simpl. rewrite orb_false_r.
    destruct (Ascii.eqb_spec c " ") as [->|Hc].
    + rewrite IH. split; [intros Hl; constructor; [reflexivity | exact Hl]|].
      intros Hall. apply Forall_cons_1 in Hall. tauto.
    + split; [discriminate|]. intros Hall. apply Forall_cons_1 in Hall. tauto.
Qed.

(** What is left after trimming spaces from the left starts with another
    character. *)
Lemma trimLeft_space_head (l : list ascii) :
  Forall (fun c => c = " "%char) (trimLeft " " l) -> trimLeft " " l = [].
Proof.
  induction l as [|c l IH]; simpl; [reflexivity|].
  unfold inCutset. simpl. rewrite orb_false_r.
  destruct (Ascii.eqb_spec c " ") as [->|Hc]; [exact IH|].
  intros Hall. apply Forall_cons_1 in Hall. tauto.
Qed.

(** [Trim(s, " ")] is empty exactly when [s] is made of space characters
    (U+0020) alone: a tab or a newline is not trimmed. *)
Lemma Trim_space_empty (s : string) :
  Trim s " " = "" <-> Forall (fun c => c = " "%char) (list_ascii_of_string s).
Proof.
  unfold Trim. rewrite <- trimLeft_space_nil. split.
  - intros Hempty.
    apply (f_equal list_ascii_of_string) in Hempty.
    rewrite list_ascii_of_string_of_list_ascii in Hempty. simpl in Hempty.
    apply (f_equal (@rev ascii)) in Hempty. rewrite rev_involutive in Hempty.
    simpl in Hempty. apply trimLeft_space_nil in Hempty.
    apply trimLeft_space_head. apply Forall_rev in Hempty.
    rewrite rev_involutive in Hempty. exact Hempty.
  - intros ->. reflexivity.
Qed.

(** [AddRule] on a list is [AddRule] on a first part of it and then, if
    that returned no error, on the rest. *)
Lemma AddRule_app (pre rest : list Rule) :
  forall e : CELEngine,
    AddRule B e (pre ++ rest) =
    match AddRule B e pre with
    | (e1, None) => AddRule B e1 rest
    | (e1, Some err) => (e1, Some err)
    end.
Proof.
  induction pre as [|p pre IH]; intros e; simpl; [reflexivity|].
  destruct (String.length (Trim (ID p) " ") =? 0)%nat; [reflexivity|].
  destruct (addRuleWithSchema B e p (Rule_Schema p)) as [e1 [err|]]; [reflexivity|].
  apply IH.
Qed.

(** C7, in the form that holds of the code.  For a rule [r] of the
    argument list of [AddRule] whose ID is empty after trimming space
    characters (an ID that is empty or made of spaces alone; the check is
    made for the rules of the list, not for their child rules), with the
    rules [pre] before it and the rules [post] after it in the list:
    when [r] is first, [AddRule] returns the error "Required rule ID" and
    leaves the engine as it was; in general [AddRule] returns what it
    returns for [pre] alone, with the error "Required rule ID" if [pre]
    was registered without error and with the error of [pre] otherwise,
    so that neither [r] nor a rule of [post] is registered; the error is
    never nil, and the rule index of the engine holds at the ID of [r]
    what it held before. *)
Theorem AddRule_blank_ID (e : CELEngine) (pre : list Rule) (r : Rule) (post : list Rule) :
  Trim (ID r) " " = "" ->
  AddRule B e (r :: post) = (e, Some (RequiredRuleID (Expr r))) /\
  AddRule B e (pre ++ r :: post) =
    match AddRule B e pre with
    | (e1, None) => (e1, Some (RequiredRuleID (Expr r)))
    | (e1, Some err) => (e1, Some err)
    end /\
  (AddRule B e (pre ++ r :: post)).2 <> None /\
  rules (AddRule B e (pre ++ r :: post)).1 !! ID r = rules e !! ID r.
Proof.
  intros Hblank.
  assert (Hhead : forall e0, AddRule B e0 (r :: post) = (e0, Some (RequiredRuleID (Expr r)))).
  { intros e0. simpl. rewrite Hblank. reflexivity. }
  split; [apply Hhead|].
  split.
  { rewrite AddRule_app. destruct (AddRule B e pre) as [e1 [err|]]; [reflexivity|].
    apply Hhead. }
  revert e. induction pre as [|p pre IH]; intros e.
  - simpl app. rewrite Hhead. split; [discriminate | reflexivity].
  - simpl. destruct (String.length (Trim (ID p) " ") =? 0)%nat eqn:Hp.
    + split; [discriminate | reflexivity].
    + pose proof (addRuleWithSchema_rules p e (Rule_Schema p)) as Hrules.
      destruct (addRuleWithSchema B e p (Rule_Schema p)) as [e1 [err|]]; simpl in Hrules.
      * simpl. rewrite Hrules. split; [discriminate | reflexivity].
      * destruct (IH (storeRule e1 p)) as [Herr Hkeep]. split; [exact Herr|].
        rewrite Hkeep. simpl. rewrite Hrules. apply lookup_insert_ne.
        intros Hsame. rewrite Hsame, Hblank in Hp. discriminate.
Qed.

(** What [Calculate] does with the program it has found or compiled. *)
Lemma Calculate_unfold (e : CELEngine) (data : Data) (expr : string) (schema : Schema) :
  Calculate B e data expr schema =
  match
    match programs e !! expr with
    | Some prg => inl (e, Some prg)
    | None =>
      match AddRule B e [mkRule expr expr schema Nil Nil Nil [] []] with
      | (e, Some err) => inr (e, err)
      | (e, None) => inl (e, programs e !! expr)
      end
    end
  with
  | inr (e, err) => (e, Done (0%float, Some err))
  | inl (e, prg) =>
    match evaluateProgram data prg with
    | Panic => (e, Panic)
    | Done (_, Some err) => (e, Done (0%float, Some err))
    | Done (result, None) =>
      match assertFloat64 result with
      | (val, true) => (e, Done (val, None))
      | (_, false) => (e, Done (0%float, Some (NotFloat64 result)))
      end
    end
  end.
Proof. reflexivity. Qed.

(** C8 (as amended).  When the program of the expression (the one stored
    under the expression text, or the one that [AddRule] has just compiled
    and stored) evaluates without error to [result]: [Calculate] returns
    [f] with no error when [result] is the float64 [f], and it fails with
    the conversion error exactly when the dynamic type of [result] is not
    float64, an int64 included. *)
Theorem Calculate_float64_only (e e1 : CELEngine) (data : Data) (expr : string)
  (schema : Schema) (prg : Program) (result : interface) :
  (programs e !! expr = Some prg /\ e1 = e) \/
  (programs e !! expr = None /\
   AddRule B e [mkRule expr expr schema Nil Nil Nil [] []] = (e1, None) /\
   programs e1 !! expr = Some prg) ->
  prg data = (result, None) ->
  (forall f, result = IFloat64 f ->
     Calculate B e data expr schema = (e1, Done (f, None))) /\
  ((forall f, result <> IFloat64 f) ->
     Calculate B e data expr schema = (e1, Done (0%float, Some (NotFloat64 result)))) /\
  (Calculate B e data expr schema = (e1, Done (0%float, Some (NotFloat64 result))) <->
   forall f, result <> IFloat64 f).
Proof.
  intros Hfound Hrun.
  assert (Hcalc : Calculate B e data expr schema =
                  match assertFloat64 result with
                  | (val, true) => (e1, Done (val, None))
                  | (_, false) => (e1, Done (0%float, Some (NotFloat64 result)))
                  end).
  { rewrite Calculate_unfold.
    destruct Hfound as [[Hprg ->]|(Hnone & Hadd & Hprg)].
    - rewrite Hprg. simpl. rewrite Hrun. reflexivity.
    - rewrite Hnone, Hadd, Hprg. simpl. rewrite Hrun. reflexivity. }
  rewrite Hcalc. split; [|split].
  - intros f ->. reflexivity.
  - intros Hother. destruct result; try reflexivity. destruct (Hother f eq_refl).
  - destruct result; simpl; split; intros Hx; try reflexivity;
      try (intros f0; discriminate); try discriminate.
    destruct (Hx f eq_refl).
Qed.

End Registration_facts.

(** ** The registration at concrete inputs *)

(** Registration at concrete rules: a rule without schema and without expression is
    refused when there is no ambient schema; under a parent with a schema
    the same rule, with an expression, is compiled and its program stored. *)
Lemma schema_inheritance_examples :
  let child := node "child" "x > 5" [] in
  let parent := mkRule "parent" "" (schemaOf Int ["x"]) Nil Nil Nil [] [child] in
  addRuleWithSchema testBackend NewEngine (node "group" "" []) noSchema
    = (NewEngine, Some (NoValidSchema "group")) /\
  addRuleWithSchema testBackend NewEngine child noSchema
    = (NewEngine, Some (NoValidSchema "child")) /\
  (addRuleWithSchema testBackend NewEngine parent noSchema).2 = None /\
  is_Some (programs (addRuleWithSchema testBackend NewEngine parent noSchema).1 !! "child").
Proof. repeat split. eexists. reflexivity. Qed.

(** C7, as stated, fails for an ID made of a tab: [AddRule] returns no
    error and the rule is registered under that ID. *)
Lemma AddRule_tab_ID_registered :
  let r := mkRule tab "" (schemaOf Int ["x"]) Nil Nil Nil [] [] in
  Trim (ID r) " " = tab /\
  AddRule testBackend NewEngine [r] = (mkCELEngine {[ tab := r ]} ∅, None) /\
  rules (AddRule testBackend NewEngine [r]).1 !! ID r = Some r.
Proof. repeat split. Qed.

(** The check of the ID is not made for a child rule: a child rule whose
    ID is two spaces is compiled with its parent, [AddRule] returns no
    error and the engine holds the program of the child under that ID. *)
Lemma AddRule_blank_child_ID_registered :
  let child := node "  " "x > 5" [] in
  let parent := mkRule "parent" "" (schemaOf Int ["x"]) Nil Nil Nil [] [child] in
  Trim (ID child) " " = "" /\
  (AddRule testBackend NewEngine [parent]).2 = None /\
  rules (AddRule testBackend NewEngine [parent]).1 !! "parent" = Some parent /\
  is_Some (programs (AddRule testBackend NewEngine [parent]).1 !! "  ").
Proof. repeat split. eexists. reflexivity. Qed.

(** C7 at a rule whose ID is two spaces: first in the list; after a rule
    that is registered, which stays registered; and after a rule that has
    no schema, whose error is the one returned. *)
Lemma AddRule_blank_ID_witness :
  let ok := mkRule "r1" "" (schemaOf Int ["x"]) Nil Nil Nil [] [] in
  let r := mkRule "  " "x > 5" (schemaOf Int ["x"]) Nil Nil Nil [] [] in
  Trim (ID r) " " = "" /\
  AddRule testBackend NewEngine [r] = (NewEngine, Some (RequiredRuleID "x > 5")) /\
  AddRule testBackend NewEngine [ok; r; ok]
    = (mkCELEngine {[ "r1" := ok ]} ∅, Some (RequiredRuleID "x > 5")) /\
  AddRule testBackend NewEngine [node "r0" "" []; r]
    = (NewEngine, Some (NoValidSchema "r0")) /\
  (AddRule testBackend NewEngine [ok; r]).2 <> None /\
  rules (AddRule testBackend NewEngine [ok; r]).1 !! "  " = None.
Proof.
  intros ok r.
  assert (Hblank : Trim (ID r) " " = "") by reflexivity.
  split; [exact Hblank|].
  destruct (AddRule_blank_ID testBackend NewEngine [ok] r [] Hblank)
    as (Hhead & _ & Herr & Hkeep).
  destruct (AddRule_blank_ID testBackend NewEngine [ok] r [ok] Hblank)
    as (_ & Hmid & _).
  destruct (AddRule_blank_ID testBackend NewEngine [node "r0" "" []] r [] Hblank)
    as (_ & Hafter & _).
  split; [exact Hhead|]. split; [exact Hmid|]. split; [exact Hafter|].
  split; [exact Herr|]. exact Hkeep.
Defined.

(** C8, as stated, fails at its own example: over the Int variables
    [a = 2] and [b = 3] the expression [a+b] evaluates to the int64 5, a
    number, and [Calculate] answers with the conversion error. *)
Lemma Calculate_int_sum_not_converted :
  let data : Data := {[ "a" := IInt64 2; "b" := IInt64 3 ]} in
  sumProgram data = (IInt64 5, None) /\
  (Calculate testBackend NewEngine data "a+b" (schemaOf Int ["a"; "b"])).2
    = Done (0%float, Some (NotFloat64 (IInt64 5))) /\
  (Calculate testBackend (engineWith "a+b" sumProgram) data "a+b"
             (schemaOf Int ["a"; "b"])).2
    = Done (0%float, Some (NotFloat64 (IInt64 5))).
Proof. repeat split. Qed.

(** C8 (as amended) over the Float variables [a = 2.0] and [b = 3.0]:
    [Calculate] compiles [a+b], stores its program and returns 5.0. *)
Lemma Calculate_float64_only_witness :
  let data : Data := {[ "a" := IFloat64 2%float; "b" := IFloat64 3%float ]} in
  let schema := schemaOf Float ["a"; "b"] in
  let e1 := mkCELEngine {[ "a+b" := mkRule "a+b" "a+b" schema Nil Nil Nil [] [] ]}
                        {[ "a+b" := sumProgram ]} in
  programs NewEngine !! "a+b" = None /\
  AddRule testBackend NewEngine [mkRule "a+b" "a+b" schema Nil Nil Nil [] []] = (e1, None) /\
  sumProgram data = (IFloat64 5%float, None) /\
  Calculate testBackend NewEngine data "a+b" schema = (e1, Done (5%float, None)).
Proof.
  intros data schema e1.
  assert (Hnone : programs NewEngine !! "a+b" = None) by reflexivity.
  assert (Hadd : AddRule testBackend NewEngine
                   [mkRule "a+b" "a+b" schema Nil Nil Nil [] []] = (e1, None))
    by reflexivity.
  assert (Hprg : programs e1 !! "a+b" = Some sumProgram) by reflexivity.
  assert (Hrun : sumProgram data = (IFloat64 5%float, None)) by reflexivity.
  repeat (split; [assumption|]).
  exact (proj1 (Calculate_float64_only testBackend NewEngine e1 data "a+b" schema
                  sumProgram (IFloat64 5%float)
                  (or_intror (conj Hnone (conj Hadd Hprg))) Hrun)
               5%float eq_refl).
Defined.

End cel_facts.

(** * Properties of the helpers of the package rules *)
Module rules_facts.
Import rules rules_examples rules_runs.

Section Helpers_facts.

Context {E : Type} `{Engine E}.
Variable rangeKeys : gmap string Rule -> list string.

(** There are as many evaluations as rules. *)
Lemma ruleEvaluations_length (ruleSetID : string) (ids : list string) :
  forall e data, length (ruleEvaluations ruleSetID ids e data) = length ids.
Proof.
  induction ids as [|ruleID ids IH]; intros e data; simpl; [reflexivity|].
  rewrite IH. reflexivity.
Qed.

(** The loop of [EvaluateUntilTrue] ends with the zero value and no error
    exactly when every evaluation returned a result that did not pass. *)
Lemma evaluateUntilTrueLoop_zero (ruleSetID : string) (ids : list string) :
  forall e data,
    (evaluateUntilTrueLoop ruleSetID ids e data).2 = Done (Result_zero, None) <->
    Forall notPassed (ruleEvaluations ruleSetID ids e data).
Proof.
  induction ids as [|ruleID ids IH]; intros e data; simpl.
  - split; [constructor | reflexivity].
  - rewrite Forall_cons.
    destruct (Engine_EvaluateRule e data ruleSetID ruleID) as [[e1 data1] [[r|] [err|]]];
      simpl.
    + split; [discriminate | intros [(r' & Hout & _) _]; discriminate].
    + destruct (Pass r) eqn:Hpass; simpl.
      * split.
        -- intros [= ->]. discriminate.
        -- intros [(r' & [= <-] & Hfalse) _]. congruence.
      * rewrite IH. split; [|tauto]. intros Hall. split; [|exact Hall].
        exists r. split; [reflexivity | exact Hpass].
    + split; [discriminate | intros [(r' & Hout & _) _]; discriminate].
    + split; [discriminate | intros [(r' & Hout & _) _]; discriminate].
Qed.

(** The loop of [EvaluateUntilTrue] faults exactly when an evaluation
    returns a nil result and a nil error after evaluations that returned
    results that did not pass. *)
Lemma evaluateUntilTrueLoop_fault (ruleSetID : string) (ids : list string) :
  forall e data,
    (evaluateUntilTrueLoop ruleSetID ids e data).2 = Panic <->
    exists pre post,
      ruleEvaluations ruleSetID ids e data = (pre ++ (None, None) :: post)%list /\
      Forall notPassed pre.
Proof.
  induction ids as [|ruleID ids IH]; intros e data; simpl.
  - split; [discriminate|]. intros (pre & post & Hnil & _). destruct pre; discriminate.
  - destruct (Engine_EvaluateRule e data ruleSetID ruleID) as [[e1 data1] [[r|] [err|]]];
      simpl.
    + split; [discriminate|]. intros (pre & post & Houts & Hpre).
      destruct pre as [|out pre]; [discriminate|]. injection Houts as <- _.
      apply Forall_cons_1 in Hpre. destruct Hpre as [(r' & Hout & _) _]. discriminate.
    + destruct (Pass r) eqn:Hpass; simpl.
      * split; [discriminate|]. intros (pre & post & Houts & Hpre).
        destruct pre as [|out pre]; [discriminate|]. injection Houts as <- _.
        apply Forall_cons_1 in Hpre. destruct Hpre as [(r' & [= <-] & Hfalse) _].
        congruence.
      * rewrite IH. split.
        -- intros (pre & post & Houts & Hpre). exists ((Some r, None) :: pre), post.
           split; [simpl; rewrite Houts; reflexivity|].
           apply Forall_cons. split; [|exact Hpre].
           exists r. split; [reflexivity | exact Hpass].
        -- intros (pre & post & Houts & Hpre).
           destruct pre as [|out pre]; [discriminate|]. injection Houts as _ Houts.
           apply Forall_cons_1 in Hpre. destruct Hpre as [_ Hpre].
           exists pre, post. split; [exact Houts | exact Hpre].
    + split; [discriminate|]. intros (pre & post & Houts & Hpre).
      destruct pre as [|out pre]; [discriminate|]. injection Houts as <- _.
      apply Forall_cons_1 in Hpre. destruct Hpre as [(r' & Hout & _) _]. discriminate.
    + split; [|reflexivity]. intros _. exists [], (ruleEvaluations ruleSetID ids e1 data1).
      split; [reflexivity | constructor].
Qed.

(** C10, in the form that holds of the code.  On a rule set that exists,
    in whatever order the rules are visited, with one evaluation for each
    rule of the set, each on the engine and the data map as the
    evaluation before it left them: [EvaluateUntilTrue] returns the zero
    value of [Result], with an empty [RuleSetID], an empty [RuleID] and
    [Pass] false, and a nil error, if and only if every evaluation
    returns a non-nil result with [Pass] false and a nil error.  It
    faults if and only if an evaluation returns a nil result with a nil
    error after evaluations that returned non-nil results with [Pass]
    false and nil errors. *)
Theorem EvaluateUntilTrue_none_true (e : E) (data : Data) (ruleSetID : string)
  (ruleSet : RuleSet) :
  (forall m, rangeKeys m ≡ₚ (map_to_list m).*1) ->
  Engine_RuleSet e ruleSetID = (ruleSet, true) ->
  let outs := ruleEvaluations ruleSetID (rangeKeys (Rules ruleSet)) e data in
  length outs = size (Rules ruleSet) /\
  ((EvaluateUntilTrue rangeKeys e data ruleSetID).2 = Done (Result_zero, None) <->
   Forall notPassed outs) /\
  ((EvaluateUntilTrue rangeKeys e data ruleSetID).2 = Panic <->
   exists pre post, outs = (pre ++ (None, None) :: post)%list /\ Forall notPassed pre) /\
  RuleSetID Result_zero = "" /\ RuleID Result_zero = "" /\ Pass Result_zero = false.
Proof.
  intros Hperm Hfound outs. subst outs.
  split; [|split; [|split; [|repeat split]]].
  - rewrite ruleEvaluations_length, (Hperm (Rules ruleSet)), length_fmap.
    apply length_map_to_list.
  - unfold EvaluateUntilTrue. rewrite Hfound. simpl. apply evaluateUntilTrueLoop_zero.
  - unfold EvaluateUntilTrue. rewrite Hfound. simpl. apply evaluateUntilTrueLoop_fault.
Qed.

End Helpers_facts.

(** C10, as stated, fails at an engine whose [EvaluateRule] returns a nil
    result and a nil error: no rule of the set evaluates to a result that
    passes and no evaluation returns an error, and [EvaluateUntilTrue]
    faults at the first rule. *)
Lemma EvaluateUntilTrue_nil_result_faults :
  @Engine_RuleSet _ returnsNil {[ "set" := twoRules ]} "set" = (twoRules, true) /\
  @ruleEvaluations _ returnsNil "set" (keysInOrder (Rules twoRules))
                   {[ "set" := twoRules ]} ∅
  = [(None, None); (None, None)] /\
  (@EvaluateUntilTrue _ returnsNil keysInOrder {[ "set" := twoRules ]} ∅ "set").2 = Panic.
Proof. repeat split. Qed.

(** C10 at the engine in which no rule passes, on a set of two rules. *)
Lemma EvaluateUntilTrue_none_true_witness :
  @Engine_RuleSet _ neverPasses {[ "set" := twoRules ]} "set" = (twoRules, true) /\
  (@EvaluateUntilTrue _ neverPasses keysInOrder {[ "set" := twoRules ]}
                      {[ "x" := IInt64 3 ]} "set").2
  = Done (mkResult "" "" false 0%float 0 "" None, None).
Proof.
  assert (Hfound : @Engine_RuleSet _ neverPasses {[ "set" := twoRules ]} "set"
                   = (twoRules, true)) by reflexivity.
  split; [exact Hfound|].
  destruct (@EvaluateUntilTrue_none_true _ neverPasses keysInOrder
              {[ "set" := twoRules ]} {[ "x" := IInt64 3 ]} "set" twoRules
              (fun m => reflexivity _) Hfound) as (_ & Hzero & _).
  apply Hzero. vm_compute.
  repeat (constructor; [eexists; split; reflexivity|]). constructor.
Defined.

End rules_facts.

(** * Further properties of the engine *)
Module cel_coverage.
Import cel examples trees coverage_examples.

Section Evaluation_coverage.

Variable SelfKey : string.

Local Abbreviation merged opt rule := (ApplyOptions opt (Opts rule)).

Local Abbreviation admitted opt r :=
  ((negb (Pass r) && ReturnFail opt) || (Pass r && ReturnPass opt)).

(** [addSelf] writes to the reserved key alone. *)
Lemma addSelf_frame (data : Data) (self : interface) :
  delete SelfKey (addSelf SelfKey data self) = delete SelfKey data.
Proof.
  unfold addSelf. destruct (negb (isNil self)).
  - apply delete_insert_eq.
  - apply delete_delete_eq.
Qed.

(** The rule's own evaluation writes to the reserved key alone. *)
Lemma evaluateOwn_data_frame (e : CELEngine) (rule : Rule) (pr : Result) (data : Data) :
  delete SelfKey (evaluateOwn SelfKey e rule pr data).1 = delete SelfKey data.
Proof.
  unfold evaluateOwn. destruct (programs e !! ID rule) as [program|]; [|reflexivity].
  destruct (program _) as [v [err|]]; [apply addSelf_frame|].
  destruct (assertBool v) as [b [|]]; apply addSelf_frame.
Qed.

(** The child loop writes to the data map what the evaluations of the
    child rules write. *)
Lemma evaluateChildren_data_frame (ev : Rule -> Data -> Evaluated) (opt : EvalOptions)
  (cs : list Rule) :
  Forall (fun c => forall data, delete SelfKey (ev c data).1 = delete SelfKey data) cs ->
  forall pr data,
    delete SelfKey (evaluateChildren ev opt cs pr data).1 = delete SelfKey data.
Proof.
  induction cs as [|c cs IH]; intros Hcs pr data; simpl; [reflexivity|].
  apply Forall_cons_1 in Hcs. destruct Hcs as [Hc Hcs]. specialize (Hc data).
  destruct (ev c data) as [data1 [[res [cerr|]]|]]; simpl in Hc; try exact Hc.
  destruct (stopOn (StopFirstPositiveChild opt) res true) as [[|]|]; try exact Hc.
  destruct (stopOn (StopFirstNegativeChild opt) res false) as [[|]|]; try exact Hc.
  rewrite IH by exact Hcs. exact Hc.
Qed.

(** Whatever the outcome of an evaluation (a result, nil, an error or a
    fault), the data map it leaves differs from the caller's map at most
    under the reserved key. *)
Theorem evaluate_data_frame (e : CELEngine) (rule : Rule) :
  forall (data : Data) (n : Z) (opt : EvalOptions),
    delete SelfKey (evaluate SelfKey e data rule n opt).1 = delete SelfKey data.
Proof.
  induction rule as [id expr sch self action meta opts cs IH] using Rule_tree_ind.
  intros data n opt. rewrite cel_facts.evaluate_unfold.
  destruct (MaxDepth opt <? n); [reflexivity|].
  pose proof (evaluateOwn_data_frame e (mkRule id expr sch self action meta opts cs)
                (newResult (mkRule id expr sch self action meta opts cs) n) data) as Hown.
  destruct (evaluateOwn SelfKey e _ _ data) as [data1 [pr|err]]; simpl in Hown;
    [|exact Hown].
  destruct (StopIfParentNegative _ && _); [exact Hown|].
  rewrite evaluateChildren_data_frame; [exact Hown|].
  eapply Forall_impl; [exact IH|]. intros c Hc data0. apply Hc.
Qed.

(** Where the entries of the [Results] map come from: what was there, and
    admitted results of evaluations of child rules, each under the ID of
    its rule. *)
Lemma evaluateChildren_provenance (ev : Rule -> Data -> Evaluated) (opt : EvalOptions)
  (cs : list Rule) :
  forall (pr : Result) (data data' : Data) (r : Result),
    evaluateChildren ev opt cs pr data = (data', Done (Some r, None)) ->
    forall k x, Results r !! k = Some x ->
      Results pr !! k = Some x \/
      (admitted opt x = true /\
       exists c data0 data1,
         c ∈ cs /\ ID c = k /\ ev c data0 = (data1, Done (Some x, None))).
Proof.
  induction cs as [|c cs IH]; intros pr data data' r Hrun k x Hk; simpl in Hrun.
  - injection Hrun as _ <-. left. exact Hk.
  - destruct (ev c data) as [data1 [[res [cerr|]]|]] eqn:Hc; try discriminate.
    set (pr1 := match res with
                | Some r0 => if admitted opt r0 then setChild pr (ID c) r0 else pr
                | None => pr end) in *.
    assert (Hpr1 : Results pr1 !! k = Some x ->
                   Results pr !! k = Some x \/
                   (admitted opt x = true /\
                    exists c0 data0 data2,
                      c0 ∈ c :: cs /\ ID c0 = k /\
                      ev c0 data0 = (data2, Done (Some x, None)))).
    { subst pr1. destruct res as [r0|]; [|tauto].
      destruct (admitted opt r0) eqn:Hadm; [|tauto]. simpl.
      destruct (decide (ID c = k)) as [<-|Hne].
      - rewrite lookup_insert_eq. intros [= <-]. right. split; [exact Hadm|].
        exists c, data, data1. split; [left|]. split; [reflexivity | exact Hc].
      - rewrite lookup_insert_ne by exact Hne. tauto. }
    destruct (stopOn (StopFirstPositiveChild opt) res true) as [[|]|]; try discriminate.
    + injection Hrun as _ <-. apply Hpr1, Hk.
    + destruct (stopOn (StopFirstNegativeChild opt) res false) as [[|]|]; try discriminate.
      * injection Hrun as _ <-. apply Hpr1, Hk.
      * destruct (IH _ _ _ _ Hrun k x Hk)
          as [Hin|(Hadm & c0 & data0 & data2 & Hc0 & Hid & Hev)].
        -- apply Hpr1, Hin.
        -- right. split; [exact Hadm|]. exists c0, data0, data2.
           split; [right; exact Hc0|]. split; assumption.
Qed.

(** What a returned result says of the rule it is for. *)
Lemma evaluate_header (e : CELEngine) (data data' : Data) (rule : Rule) (n : Z)
  (opt : EvalOptions) (r : Result) (err : option error) :
  evaluate SelfKey e data rule n opt = (data', Done (Some r, err)) ->
  err = None /\ RuleID r = ID rule /\ Action r = Rule_Action rule /\
  Meta r = Rule_Meta rule /\ Depth r = n /\ n <= MaxDepth opt.
Proof.
  rewrite cel_facts.evaluate_unfold.
  destruct (MaxDepth opt <? n) eqn:Hn; [discriminate|]. apply Z.ltb_ge in Hn.
  destruct (evaluateOwn SelfKey e rule (newResult rule n) data) as [data1 [pr|oerr]] eqn:Hown;
    [|discriminate].
  apply cel_facts.evaluateOwn_frame in Hown. simpl in Hown.
  destruct Hown as (Hid & Hact & Hmeta & Hdepth & _).
  destruct (StopIfParentNegative _ && _).
  - intros [= _ <- <-]. tauto.
  - intros Hrun. apply cel_facts.evaluateChildren_frame in Hrun.
    destruct Hrun as (-> & -> & _ & _ & -> & -> & ->). tauto.
Qed.

(** The shape of the result tree.  A result that [evaluate] returns comes
    with a nil error, carries the ID, the action and the meta data of the
    rule, and its depth, which is within [MaxDepth]; and every entry of its
    [Results] map is the result of a child rule, stored under the ID of
    that rule, one level deeper, within the [MaxDepth] of the merged
    options, and admitted by [ReturnPass] and [ReturnFail]. *)
Theorem evaluate_result_shape (e : CELEngine) (data data' : Data) (rule : Rule) (n : Z)
  (opt : EvalOptions) (r : Result) (err : option error) :
  evaluate SelfKey e data rule n opt = (data', Done (Some r, err)) ->
  (err = None /\ RuleID r = ID rule /\ Action r = Rule_Action rule /\
   Meta r = Rule_Meta rule /\ Depth r = n /\ n <= MaxDepth opt) /\
  (forall k x, Results r !! k = Some x ->
     exists c, c ∈ Rules rule /\ ID c = k /\ RuleID x = k /\
               Action x = Rule_Action c /\ Meta x = Rule_Meta c /\
               Depth x = int_add n 1 /\ int_add n 1 <= MaxDepth (merged opt rule) /\
               admitted (merged opt rule) x = true).
Proof.
  intros Hrun. split; [exact (evaluate_header _ _ _ _ _ _ _ _ Hrun)|].
  destruct (evaluate_header _ _ _ _ _ _ _ _ Hrun) as (-> & _).
  revert Hrun. rewrite cel_facts.evaluate_unfold.
  destruct (MaxDepth opt <? n); [discriminate|].
  destruct (evaluateOwn SelfKey e rule (newResult rule n) data) as [data1 [pr|oerr]] eqn:Hown;
    [|discriminate].
  apply cel_facts.evaluateOwn_frame in Hown. destruct Hown as (_ & _ & _ & _ & Hempty).
  simpl in Hempty.
  destruct (StopIfParentNegative _ && _).
  - intros [= _ <-] k x Hk. rewrite Hempty, lookup_empty in Hk. discriminate.
  - intros Hrun k x Hk.
    destruct (evaluateChildren_provenance _ _ _ _ _ _ _ Hrun k x Hk)
      as [Hin|(Hadm & c & data0 & data2 & Hc & Hid & Hev)].
    { rewrite Hempty, lookup_empty in Hin. discriminate. }
    destruct (evaluate_header _ _ _ _ _ _ _ _ Hev) as (_ & Hx & Hact & Hmeta & Hd & Hle).
    exists c. repeat (split; [first [assumption | congruence]|]). exact Hadm.
Qed.

(** A rule below a child rule is below the parent. *)
Lemma subRules_child (r c c' : Rule) :
  c ∈ Rules r -> c' ∈ subRules c -> c' ∈ subRules r.
Proof.
  intros Hc Hc'. destruct r as [id expr sch self action meta opts cs]. simpl in *.
  right. apply list_elem_of_In, in_flat_map. exists c.
  split; apply list_elem_of_In; assumption.
Qed.

Lemma subRules_self (r : Rule) : r ∈ subRules r.
Proof. destruct r. simpl. left. Qed.

(** An error of the child loop is an error of the evaluation of a child
    rule, returned as it is and with a nil result. *)
Lemma evaluateChildren_error (ev : Rule -> Data -> Evaluated) (opt : EvalOptions)
  (cs : list Rule) :
  forall (pr : Result) (data data' : Data) (res : option Result) (err : error),
    evaluateChildren ev opt cs pr data = (data', Done (res, Some err)) ->
    res = None /\
    exists c data0 data1 res0,
      c ∈ cs /\ ev c data0 = (data1, Done (res0, Some err)).
Proof.
  induction cs as [|c cs IH]; intros pr data data' res err Hrun; simpl in Hrun;
    [discriminate|].
  destruct (ev c data) as [data1 [[res0 [cerr|]]|]] eqn:Hc; try discriminate.
  - injection Hrun as _ <- <-. split; [reflexivity|].
    exists c, data, data1, res0. split; [left | exact Hc].
  - destruct (stopOn (StopFirstPositiveChild opt) res0 true) as [[|]|]; try discriminate.
    destruct (stopOn (StopFirstNegativeChild opt) res0 false) as [[|]|]; try discriminate.
    destruct (IH _ _ _ _ _ Hrun) as (-> & c0 & data0 & data2 & res1 & Hc0 & Hev).
    split; [reflexivity|]. exists c0, data0, data2, res1. split; [right; exact Hc0 | exact Hev].
Qed.

(** Where an error of an evaluation comes from.  When [evaluate] returns an
    error, the result is nil and the error is "Error evaluating rule" with
    the ID of the rule evaluated or of a rule below it: a rule with a stored
    program, whose execution returned the error that is wrapped. *)
Theorem evaluate_error_provenance (e : CELEngine) (rule : Rule) :
  forall (data data' : Data) (n : Z) (opt : EvalOptions) (res : option Result)
         (err : error),
    evaluate SelfKey e data rule n opt = (data', Done (res, Some err)) ->
    res = None /\
    exists c program d v cause,
      c ∈ subRules rule /\ programs e !! ID c = Some program /\
      program d = (v, Some cause) /\ err = ErrorEvaluatingRule (ID c) cause.
Proof.
  induction rule as [id expr sch self action meta opts cs IH] using Rule_tree_ind.
  intros data data' n opt res err. rewrite cel_facts.evaluate_unfold.
  set (rule := mkRule id expr sch self action meta opts cs) in *.
  destruct (MaxDepth opt <? n); [discriminate|].
  destruct (evaluateOwn SelfKey e rule (newResult rule n) data) as [data1 [pr|oerr]] eqn:Hown.
  - destruct (StopIfParentNegative _ && _); [discriminate|].
    intros Hrun. apply evaluateChildren_error in Hrun.
    destruct Hrun as (-> & c & data0 & data2 & res0 & Hc & Hev).
    split; [reflexivity|].
    rewrite Forall_forall in IH.
    destruct (IH c Hc _ _ _ _ _ _ Hev) as (_ & c' & program & d & v & cause & Hin & Hrest).
    exists c', program, d, v, cause. split; [|exact Hrest].
    apply (subRules_child rule c c'); assumption.
  - intros [= _ <- <-]. split; [reflexivity|].
    unfold evaluateOwn in Hown.
    destruct (programs e !! ID rule) as [program|] eqn:Hprg; [|discriminate].
    destruct (program (addSelf SelfKey data (Self rule))) as [v [cause|]] eqn:Hexec.
    + injection Hown as _ <-.
      exists rule, program, (addSelf SelfKey data (Self rule)), v, cause.
      split; [apply subRules_self|]. repeat split; assumption.
    + destruct (assertBool v) as [b [|]]; discriminate.
Qed.

(** The child loop faults only on a fault of a child's evaluation, as long
    as neither stop-on-first-child option is set. *)
Lemma evaluateChildren_no_fault (ev : Rule -> Data -> Evaluated) (opt : EvalOptions)
  (cs : list Rule) :
  StopFirstPositiveChild opt = false ->
  StopFirstNegativeChild opt = false ->
  Forall (fun c => forall data, (ev c data).2 <> Panic) cs ->
  forall pr data, (evaluateChildren ev opt cs pr data).2 <> Panic.
Proof.
  intros Hpos Hneg. induction cs as [|c cs IH]; intros Hcs pr data; simpl; [discriminate|].
  apply Forall_cons_1 in Hcs. destruct Hcs as [Hc Hcs]. specialize (Hc data).
  destruct (ev c data) as [data1 [[res [cerr|]]|]]; simpl in Hc; try discriminate;
    [|exact Hc].
  rewrite Hpos, Hneg. simpl. apply IH, Hcs.
Qed.

(** No fault without a stop-on-first-child option.  When neither
    [StopFirstPositiveChild] nor [StopFirstNegativeChild] is set in the
    options passed in, and no rule of the tree switches one of them on by
    its own overrides, the evaluation does not fault, however deep the tree
    is with respect to [MaxDepth]. *)
Theorem evaluate_no_fault (e : CELEngine) (rule : Rule) :
  (forall c o, c ∈ subRules rule ->
     StopFirstPositiveChild o = false -> StopFirstNegativeChild o = false ->
     StopFirstPositiveChild (merged o c) = false /\
     StopFirstNegativeChild (merged o c) = false) ->
  forall (data : Data) (n : Z) (opt : EvalOptions),
    StopFirstPositiveChild opt = false ->
    StopFirstNegativeChild opt = false ->
    (evaluate SelfKey e data rule n opt).2 <> Panic.
Proof.
  induction rule as [id expr sch self action meta opts cs IH] using Rule_tree_ind.
  set (rule := mkRule id expr sch self action meta opts cs) in *.
  intros Hquiet data n opt Hpos Hneg. rewrite cel_facts.evaluate_unfold.
  destruct (MaxDepth opt <? n); [discriminate|].
  destruct (evaluateOwn SelfKey e rule (newResult rule n) data) as [data1 [pr|oerr]];
    [|discriminate].
  destruct (StopIfParentNegative _ && _); [discriminate|].
  destruct (Hquiet rule opt (subRules_self rule) Hpos Hneg) as [Hpos' Hneg'].
  apply evaluateChildren_no_fault; try assumption.
  rewrite Forall_forall in IH. apply Forall_forall. intros c Hc data0.
  apply IH; try assumption.
  intros c' o Hc'. apply Hquiet. apply (subRules_child rule c c'); assumption.
Qed.

(** The child loop under a stop-on-first-child option for the outcome [b]
    ([true]: [StopFirstPositiveChild], [false]: [StopFirstNegativeChild]):
    started on a map without an entry of outcome [b], it ends with at most
    one. *)
Lemma evaluateChildren_first_stop (b : bool) (ev : Rule -> Data -> Evaluated)
  (opt : EvalOptions) (cs : list Rule) :
  (if b then StopFirstPositiveChild opt else StopFirstNegativeChild opt) = true ->
  forall (pr : Result) (data data' : Data) (r : Result),
    (forall k x, Results pr !! k = Some x -> Pass x = negb b) ->
    evaluateChildren ev opt cs pr data = (data', Done (Some r, None)) ->
    forall k1 k2 x1 x2,
      Results r !! k1 = Some x1 -> Results r !! k2 = Some x2 ->
      Pass x1 = b -> Pass x2 = b -> k1 = k2.
Proof.
  intros Hflag. induction cs as [|c cs IH]; intros pr data data' r Hnone Hrun; simpl in Hrun.
  - injection Hrun as _ <-. intros k1 k2 x1 x2 H1 H2 Hp1 _.
    apply Hnone in H1. rewrite Hp1 in H1. destruct b; discriminate.
  - destruct (ev c data) as [data1 [[res [cerr|]]|]]; try discriminate.
    destruct res as [r0|].
    2:{ destruct b; rewrite Hflag in Hrun; simpl in Hrun; try discriminate.
        destruct (StopFirstPositiveChild opt); discriminate. }
    set (pr1 := if admitted opt r0 then setChild pr (ID c) r0 else pr) in *.
    assert (Hone : forall k1 k2 x1 x2,
               Results pr1 !! k1 = Some x1 -> Results pr1 !! k2 = Some x2 ->
               Pass x1 = b -> Pass x2 = b -> k1 = k2).
    { intros k1 k2 x1 x2 H1 H2 Hp1 Hp2. subst pr1.
      assert (Hno : forall x, Pass x = negb b -> Pass x = b -> False)
        by (intros x Ha Hb; rewrite Ha in Hb; destruct b; discriminate).
      destruct (admitted opt r0); simpl in H1, H2.
      - destruct (decide (ID c = k1)) as [<-|Hne1], (decide (ID c = k2)) as [<-|Hne2];
          try reflexivity.
        + rewrite lookup_insert_ne in H2 by exact Hne2.
          destruct (Hno x2 (Hnone _ _ H2) Hp2).
        + rewrite lookup_insert_ne in H1 by exact Hne1.
          destruct (Hno x1 (Hnone _ _ H1) Hp1).
        + rewrite lookup_insert_ne in H1 by exact Hne1.
          destruct (Hno x1 (Hnone _ _ H1) Hp1).
      - destruct (Hno x1 (Hnone _ _ H1) Hp1). }
    assert (Hkeep : Pass r0 = negb b ->
               forall k x, Results pr1 !! k = Some x -> Pass x = negb b).
    { intros Hr0 k x. subst pr1. destruct (admitted opt r0); simpl; [|apply Hnone].
      destruct (decide (ID c = k)) as [<-|Hne].
      - rewrite lookup_insert_eq. intros [= <-]. exact Hr0.
      - rewrite lookup_insert_ne by exact Hne. apply Hnone. }
    unfold stopOn in Hrun. simpl in Hrun.
    destruct b; rewrite Hflag in Hrun.
    + destruct (Pass r0) eqn:Hp; simpl in Hrun.
      * injection Hrun as _ <-. exact Hone.
      * destruct (StopFirstNegativeChild opt); simpl in Hrun.
        -- injection Hrun as _ <-. exact Hone.
        -- exact (IH pr1 _ _ _ (Hkeep eq_refl) Hrun).
    + destruct (StopFirstPositiveChild opt); simpl in Hrun.
      * destruct (Pass r0) eqn:Hp; simpl in Hrun.
        -- injection Hrun as _ <-. exact Hone.
        -- injection Hrun as _ <-. exact Hone.
      * destruct (Pass r0) eqn:Hp; simpl in Hrun.
        -- exact (IH pr1 _ _ _ (Hkeep eq_refl) Hrun).
        -- injection Hrun as _ <-. exact Hone.
Qed.

(** Stop on the first child.  In a result that [evaluate] returns, with
    [StopFirstPositiveChild] in the merged options the [Results] map holds
    at most one result that passed, and with [StopFirstNegativeChild] at
    most one that failed. *)
Theorem evaluate_first_child_stop (e : CELEngine) (data data' : Data) (rule : Rule)
  (n : Z) (opt : EvalOptions) (r : Result) :
  evaluate SelfKey e data rule n opt = (data', Done (Some r, None)) ->
  (StopFirstPositiveChild (merged opt rule) = true ->
   forall k1 k2 x1 x2,
     Results r !! k1 = Some x1 -> Results r !! k2 = Some x2 ->
     Pass x1 = true -> Pass x2 = true -> k1 = k2) /\
  (StopFirstNegativeChild (merged opt rule) = true ->
   forall k1 k2 x1 x2,
     Results r !! k1 = Some x1 -> Results r !! k2 = Some x2 ->
     Pass x1 = false -> Pass x2 = false -> k1 = k2).
Proof.
  rewrite cel_facts.evaluate_unfold.
  destruct (MaxDepth opt <? n); [discriminate|].
  destruct (evaluateOwn SelfKey e rule (newResult rule n) data) as [data1 [pr|oerr]] eqn:Hown;
    [|discriminate].
  apply cel_facts.evaluateOwn_frame in Hown. destruct Hown as (_ & _ & _ & _ & Hempty).
  simpl in Hempty.
  assert (Hnone : forall b k x, Results pr !! k = Some x -> Pass x = negb b).
  { intros b k x Hk. rewrite Hempty, lookup_empty in Hk. discriminate. }
  destruct (StopIfParentNegative _ && _).
  - intros [= _ <-]. split; intros _ k1 k2 x1 x2 H1; rewrite Hempty, lookup_empty in H1;
      discriminate.
  - intros Hrun. split; intros Hflag.
    + exact (evaluateChildren_first_stop true _ _ _ Hflag _ _ _ _ (Hnone true) Hrun).
    + exact (evaluateChildren_first_stop false _ _ _ Hflag _ _ _ _ (Hnone false) Hrun).
Qed.

(** The child loop depends on the evaluation of the child rules alone. *)
Lemma evaluateChildren_ext (ev1 ev2 : Rule -> Data -> Evaluated) (opt : EvalOptions)
  (cs : list Rule) :
  Forall (fun c => forall data, ev1 c data = ev2 c data) cs ->
  forall pr data, evaluateChildren ev1 opt cs pr data = evaluateChildren ev2 opt cs pr data.
Proof.
  induction cs as [|c cs IH]; intros Hcs pr data; simpl; [reflexivity|].
  apply Forall_cons_1 in Hcs. destruct Hcs as [Hc Hcs]. rewrite Hc.
  destruct (ev2 c data) as [data1 [[res [cerr|]]|]]; try reflexivity.
  destruct (stopOn (StopFirstPositiveChild opt) res true) as [[|]|]; try reflexivity.
  destruct (stopOn (StopFirstNegativeChild opt) res false) as [[|]|]; try reflexivity.
  apply IH, Hcs.
Qed.

(** An evaluation reads the engine at the programs of the rules of the
    tree and nowhere else: two engines that store the same program, or
    none, for every rule of the tree give the same evaluation, whatever
    else they hold (other programs, the rule index). *)
Theorem evaluate_programs_ext (e1 e2 : CELEngine) (rule : Rule) :
  (forall c, c ∈ subRules rule -> programs e1 !! ID c = programs e2 !! ID c) ->
  forall (data : Data) (n : Z) (opt : EvalOptions),
    evaluate SelfKey e1 data rule n opt = evaluate SelfKey e2 data rule n opt.
Proof.
  induction rule as [id expr sch self action meta opts cs IH] using Rule_tree_ind.
  set (rule := mkRule id expr sch self action meta opts cs) in *.
  intros Hsame data n opt. rewrite !cel_facts.evaluate_unfold.
  destruct (MaxDepth opt <? n); [reflexivity|].
  assert (Hown : forall pr, evaluateOwn SelfKey e1 rule pr data
                            = evaluateOwn SelfKey e2 rule pr data).
  { intros pr. unfold evaluateOwn. rewrite (Hsame rule (subRules_self rule)). reflexivity. }
  rewrite Hown.
  destruct (evaluateOwn SelfKey e2 rule (newResult rule n) data) as [data1 [pr|oerr]];
    [|reflexivity].
  destruct (StopIfParentNegative _ && _); [reflexivity|].
  apply evaluateChildren_ext.
  rewrite Forall_forall in IH. apply Forall_forall. intros c Hc data0.
  apply IH; [exact Hc|]. intros c' Hc'. apply Hsame.
  apply (subRules_child rule c c'); assumption.
Qed.

(** The child loop, when every result is admitted and nothing stops it,
    keeps what the map held and adds an entry for every child rule whose
    evaluation does not return nil. *)
Lemma evaluateChildren_reports (ev : Rule -> Data -> Evaluated) (opt : EvalOptions)
  (cs : list Rule) :
  ReturnPass opt = true -> ReturnFail opt = true ->
  StopFirstPositiveChild opt = false -> StopFirstNegativeChild opt = false ->
  (forall c data data1, ev c data <> (data1, Done (None, None))) ->
  forall (pr : Result) (data data' : Data) (r : Result),
    evaluateChildren ev opt cs pr data = (data', Done (Some r, None)) ->
    (forall k, is_Some (Results pr !! k) -> is_Some (Results r !! k)) /\
    (forall c, c ∈ cs -> is_Some (Results r !! ID c)).
Proof.
  intros Hpass Hfail Hpos Hneg Hev.
  induction cs as [|c cs IH]; intros pr data data' r Hrun; simpl in Hrun.
  - injection Hrun as _ <-. split; [tauto|]. intros c Hc. inversion Hc.
  - destruct (ev c data) as [data1 [[res [cerr|]]|]] eqn:Hc; try discriminate.
    destruct res as [r0|]; [|destruct (Hev _ _ _ Hc)].
    rewrite Hpos, Hneg, Hpass, Hfail, !andb_true_r in Hrun. simpl in Hrun.
    replace (negb (Pass r0) || Pass r0) with true in Hrun by (destruct (Pass r0); reflexivity).
    destruct (IH _ _ _ _ Hrun) as [Hkeep Hall]. split.
    + intros k Hk. apply Hkeep. simpl.
      destruct (decide (ID c = k)) as [<-|Hne].
      * rewrite lookup_insert_eq. eexists. reflexivity.
      * rewrite lookup_insert_ne by exact Hne. exact Hk.
    + intros c0 Hc0. apply elem_of_cons in Hc0. destruct Hc0 as [->|Hc0].
      * apply Hkeep. simpl. rewrite lookup_insert_eq. eexists. reflexivity.
      * apply Hall, Hc0.
Qed.

(** Every child is reported.  When the merged options have [ReturnPass] and
    [ReturnFail] set and no stop-on-first-child option, and the child rules
    are within [MaxDepth], a result that [evaluate] returns after going
    through the child rules (its rule passed, or [StopIfParentNegative] is
    not set) has an entry for every child rule, under the ID of the rule. *)
Theorem evaluate_reports_every_child (e : CELEngine) (data data' : Data) (rule : Rule)
  (n : Z) (opt : EvalOptions) (r : Result) :
  evaluate SelfKey e data rule n opt = (data', Done (Some r, None)) ->
  ReturnPass (merged opt rule) = true -> ReturnFail (merged opt rule) = true ->
  StopFirstPositiveChild (merged opt rule) = false ->
  StopFirstNegativeChild (merged opt rule) = false ->
  StopIfParentNegative (merged opt rule) = false \/ Pass r = true ->
  int_add n 1 <= MaxDepth (merged opt rule) ->
  forall c, c ∈ Rules rule ->
    exists x, Results r !! ID c = Some x /\ RuleID x = ID c.
Proof.
  intros Hrun Hpass Hfail Hpos Hneg Hgo Hdepth c Hc.
  assert (Hsome : is_Some (Results r !! ID c)).
  { revert Hrun. rewrite cel_facts.evaluate_unfold.
    destruct (MaxDepth opt <? n); [discriminate|].
    destruct (evaluateOwn SelfKey e rule (newResult rule n) data) as [data1 [pr|oerr]];
      [|discriminate].
    destruct (StopIfParentNegative _ && negb (Pass pr)) eqn:Hstop.
    - intros [= _ <-]. apply andb_true_iff in Hstop. destruct Hstop as [Hs Hp].
      destruct Hgo as [Hgo|Hgo]; [congruence|]. rewrite Hgo in Hp. discriminate.
    - intros Hrun.
      refine (proj2 (evaluateChildren_reports _ _ _ Hpass Hfail Hpos Hneg _ _ _ _ _ Hrun)
                    c Hc).
      intros c0 data0 data2. rewrite cel_facts.evaluate_unfold.
      apply Z.ltb_ge in Hdepth. rewrite Hdepth.
      destruct (evaluateOwn SelfKey e c0 _ data0) as [data3 [pr0|oerr]]; [|discriminate].
      match goal with |- context [if ?b then _ else _] => destruct b end; [discriminate|].
      apply cel_facts.evaluateChildren_not_nil. }
  destruct Hsome as [x Hx]. exists x. split; [exact Hx|].
  revert Hrun. rewrite cel_facts.evaluate_unfold.
  destruct (MaxDepth opt <? n); [discriminate|].
  destruct (evaluateOwn SelfKey e rule (newResult rule n) data) as [data1 [pr|oerr]] eqn:Hown;
    [|discriminate].
  apply cel_facts.evaluateOwn_frame in Hown. destruct Hown as (_ & _ & _ & _ & Hempty).
  simpl in Hempty.
  destruct (StopIfParentNegative _ && _).
  - intros [= _ <-]. rewrite Hempty, lookup_empty in Hx. discriminate.
  - intros Hrun.
    destruct (evaluateChildren_provenance _ _ _ _ _ _ _ Hrun _ _ Hx)
      as [Hin|(_ & c0 & data0 & data2 & _ & Hid & Hev)].
    + rewrite Hempty, lookup_empty in Hin. discriminate.
    + destruct (evaluate_header _ _ _ _ _ _ _ _ Hev) as (_ & Hx0 & _). congruence.
Qed.

(** [RemoveRule] and the lookups.  After [RemoveRule(id)]: [Rule(id)] finds
    nothing and [Evaluate] of [id] returns "Rule not found" and leaves the
    data map as it is; the rules and the programs under the other IDs are
    as before (the programs of the child rules of the removed rule
    included); and [RuleCount] is one less when the rule was there and the
    same when it was not. *)
Theorem RemoveRule_effect (DefaultDepth : Z) (e : CELEngine) (id : string) :
  Rule_ (RemoveRule e id) id = None /\
  (forall data opts,
     Evaluate SelfKey DefaultDepth (RemoveRule e id) data id opts
     = (data, Done (None, Some RuleNotFound))) /\
  (forall k, k <> id ->
     rules (RemoveRule e id) !! k = rules e !! k /\
     programs (RemoveRule e id) !! k = programs e !! k) /\
  programs (RemoveRule e id) !! id = None /\
  RuleCount (RemoveRule e id)
  = (if decide (is_Some (rules e !! id)) then RuleCount e - 1 else RuleCount e).
Proof.
  unfold Rule_, Evaluate, RuleCount, RemoveRule. simpl.
  split; [apply lookup_delete_eq|]. split.
  { intros data opts. rewrite lookup_delete_eq. reflexivity. }
  split.
  { intros k Hk. split; apply lookup_delete_ne; congruence. }
  split; [apply lookup_delete_eq|].
  destruct (decide (is_Some (rules e !! id))) as [[r Hr]|Hnone].
  - rewrite map_size_delete_Some by (eexists; exact Hr).
    assert (size (rules e) <> 0%nat).
    { intros Hz. apply map_size_empty_iff in Hz. rewrite Hz, lookup_empty in Hr.
      discriminate. }
    lia.
  - rewrite delete_id; [reflexivity|].
    destruct (rules e !! id) eqn:Hr; [|reflexivity]. destruct Hnone. eexists. reflexivity.
Qed.

End Evaluation_coverage.

(** ** The further properties of the evaluation at concrete inputs *)

(** The shape of the result tree, at a parent rule with three child rules
    all of which are evaluated. *)
Lemma evaluate_result_shape_witness :
  exists data' r,
    evaluate selfKey threeChildrenEngine ∅ threeChildren 0 (optsWith 5 false false false)
    = (data', Done (Some r, None)) /\
    RuleID r = "parent" /\ Depth r = 0 /\
    (forall k x, Results r !! k = Some x -> RuleID x = k /\ Depth x = 1).
Proof.
  eexists _, _. split; [reflexivity|].
  match goal with |- RuleID ?r = _ /\ _ =>
    destruct (evaluate_result_shape selfKey threeChildrenEngine ∅ ∅ threeChildren 0
                (optsWith 5 false false false) r None eq_refl)
      as ((_ & Hid & _ & _ & Hdepth & _) & Hchildren)
  end.
  split; [exact Hid|]. split; [exact Hdepth|].
  intros k x Hk. destruct (Hchildren k x Hk) as (c & _ & _ & Hx & _ & _ & Hd & _).
  split; [exact Hx | exact Hd].
Defined.

(** The provenance of an error, at a child rule whose program fails. *)
Lemma evaluate_error_provenance_witness :
  let e := engineWith "child" failingProgram in
  let rule := node "parent" "" [node "child" "y > 1" []] in
  evaluate selfKey e ∅ rule 0 (optsWith 5 false false false)
  = (∅, Done (None, Some (ErrorEvaluatingRule "child" (External "no such key")))) /\
  exists c program d v cause,
    c ∈ subRules rule /\ programs e !! ID c = Some program /\
    program d = (v, Some cause) /\
    ErrorEvaluatingRule "child" (External "no such key") = ErrorEvaluatingRule (ID c) cause.
Proof.
  intros e rule.
  assert (Hrun : evaluate selfKey e ∅ rule 0 (optsWith 5 false false false)
                 = (∅, Done (None, Some (ErrorEvaluatingRule "child"
                                           (External "no such key")))))
    by reflexivity.
  split; [exact Hrun|].
  exact (proj2 (evaluate_error_provenance selfKey e rule _ _ _ _ _ _ Hrun)).
Defined.

(** No fault without a stop-on-first-child option, at a tree that is deeper
    than [MaxDepth]: the child rule is left out. *)
Lemma evaluate_no_fault_witness :
  let rule := node "parent" "" [node "child" "" []] in
  (evaluate selfKey NewEngine ∅ rule 0 (optsWith 0 false false false)).2 <> Panic /\
  evaluate selfKey NewEngine ∅ rule 0 (optsWith 0 false false false)
  = (∅, Done (Some (mkResult "parent" true (IBool true) Nil Nil 0 ∅), None)).
Proof.
  intros rule. split; [|reflexivity].
  apply (evaluate_no_fault selfKey NewEngine rule); try reflexivity.
  intros c o Hc Hpos Hneg.
  assert (Hopts : Opts c = []).
  { simpl in Hc. apply elem_of_cons in Hc. destruct Hc as [->|Hc]; [reflexivity|].
    apply elem_of_cons in Hc. destruct Hc as [->|Hc]; [reflexivity|]. inversion Hc. }
  rewrite Hopts. simpl. split; assumption.
Defined.

(** Stop on the first positive child, at child rules that evaluate to
    [false, true, true]: the result holds the first two and one of them
    passed. *)
Lemma evaluate_first_child_stop_witness :
  exists data' r,
    evaluate selfKey threeChildrenEngine ∅ threeChildren 0 (optsWith 5 false true false)
    = (data', Done (Some r, None)) /\
    Pass <$> (Results r !! "c1") = Some false /\
    Pass <$> (Results r !! "c2") = Some true /\
    Results r !! "c3" = None /\
    (forall k1 k2 x1 x2,
        Results r !! k1 = Some x1 -> Results r !! k2 = Some x2 ->
        Pass x1 = true -> Pass x2 = true -> k1 = k2).
Proof.
  eexists _, _. split; [reflexivity|]. do 3 (split; [reflexivity|]).
  match goal with |- forall k1 k2 x1 x2, Results ?r !! _ = _ -> _ =>
    exact (proj1 (evaluate_first_child_stop selfKey threeChildrenEngine ∅ ∅ threeChildren 0
                    (optsWith 5 false true false) r eq_refl) eq_refl)
  end.
Defined.

(** The evaluation reads the programs of the rules of the tree alone, at
    two engines that differ in another program and in the rule index. *)
Lemma evaluate_programs_ext_witness :
  let e1 := engineWith "r1" gt5Program in
  let e2 := mkCELEngine {[ "other" := node "other" "" [] ]}
                        {[ "r1" := gt5Program; "other" := failingProgram ]} in
  let rule := node "r1" "x > 5" [] in
  (forall c, c ∈ subRules rule -> programs e1 !! ID c = programs e2 !! ID c) /\
  forall data n opt,
    evaluate selfKey e1 data rule n opt = evaluate selfKey e2 data rule n opt.
Proof.
  intros e1 e2 rule.
  assert (Hsame : forall c, c ∈ subRules rule -> programs e1 !! ID c = programs e2 !! ID c).
  { intros c Hc. simpl in Hc. apply elem_of_cons in Hc.
    destruct Hc as [->|Hc]; [reflexivity | inversion Hc]. }
  split; [exact Hsame|].
  exact (evaluate_programs_ext selfKey e1 e2 rule Hsame).
Defined.

(** Every child is reported, at the three child rules. *)
Lemma evaluate_reports_every_child_witness :
  exists data' r,
    evaluate selfKey threeChildrenEngine ∅ threeChildren 0 (optsWith 5 false false false)
    = (data', Done (Some r, None)) /\
    forall c, c ∈ Rules threeChildren ->
      exists x, Results r !! ID c = Some x /\ RuleID x = ID c.
Proof.
  eexists _, _. split; [reflexivity|].
  match goal with |- forall c, _ -> exists x, Results ?r !! _ = _ /\ _ =>
    apply (evaluate_reports_every_child selfKey threeChildrenEngine ∅ ∅ threeChildren 0
             (optsWith 5 false false false) r eq_refl);
      try reflexivity
  end.
  - right. reflexivity.
  - vm_compute. discriminate.
Defined.

(** ** Further properties of the registration *)

Section Registration_coverage.

Variable B : Backend.

(** What the loop over the child rules does to the program store, given
    what the registration of each child rule does. *)
Lemma addChildren_programs (s : Schema) (cs : list Rule) :
  Forall (fun c => forall e s k,
            programs (addRuleWithSchema B e c s).1 !! k = programs e !! k \/
            (is_Some (programs (addRuleWithSchema B e c s).1 !! k) /\
             exists c', c' ∈ subRules c /\ ID c' = k /\ Expr c' <> "")) cs ->
  forall e k,
    programs (addChildren (fun e c => addRuleWithSchema B e c s) cs e).1 !! k
    = programs e !! k \/
    (is_Some (programs (addChildren (fun e c => addRuleWithSchema B e c s) cs e).1 !! k) /\
     exists c c', c ∈ cs /\ c' ∈ subRules c /\ ID c' = k /\ Expr c' <> "").
Proof.
  induction cs as [|c cs IH]; intros Hcs e k; simpl; [left; reflexivity|].
  apply Forall_cons_1 in Hcs. destruct Hcs as [Hc Hcs]. specialize (Hc e s k).
  destruct (addRuleWithSchema B e c s) as [e1 [err|]]; simpl in *.
  - destruct Hc as [Hc|(Hsome & c' & Hc' & Hid & Hexpr)]; [left; exact Hc|].
    right. split; [exact Hsome|]. exists c, c'. split; [left|]. tauto.
  - destruct (IH Hcs e1 k) as [Hsame|(Hsome & c0 & c' & Hc0 & Hrest)].
    + rewrite Hsame.
      destruct Hc as [Hc|(Hsome & c' & Hc' & Hid & Hexpr)]; [left; exact Hc|].
      right. split; [exact Hsome|]. exists c, c'. split; [left|]. tauto.
    + right. split; [exact Hsome|]. exists c0, c'. split; [right; exact Hc0 | exact Hrest].
Qed.

(** What the registration of a rule tree does to the program store, on
    success and on failure: under a key it leaves the program that was
    there, or it has stored one and the key is the ID of a rule of the tree
    that has an expression. *)
Lemma addRuleWithSchema_programs (r : Rule) :
  forall (e : CELEngine) (s : Schema) (k : string),
    programs (addRuleWithSchema B e r s).1 !! k = programs e !! k \/
    (is_Some (programs (addRuleWithSchema B e r s).1 !! k) /\
     exists c, c ∈ subRules r /\ ID c = k /\ Expr c <> "").
Proof.
  induction r as [id expr sch self action meta opts cs IH] using Rule_tree_ind.
  set (r := mkRule id expr sch self action meta opts cs) in *.
  intros e s k. rewrite cel_facts.addRuleWithSchema_unfold.
  destruct (chooseSchema B r s) as [[[decls|] pass]|err]; try (left; reflexivity).
  destruct (NewEnv B decls) as [env|err]; [|left; reflexivity].
  assert (Hloop : forall e0,
    programs (addChildren (fun e c => addRuleWithSchema B e c pass) cs e0).1 !! k
    = programs e0 !! k \/
    (is_Some (programs (addChildren (fun e c => addRuleWithSchema B e c pass) cs e0).1 !! k) /\
     exists c, c ∈ subRules r /\ ID c = k /\ Expr c <> "")).
  { intros e0. destruct (addChildren_programs pass cs IH e0 k)
      as [Hsame|(Hsome & c & c' & Hc & Hc' & Hrest)]; [left; exact Hsame|].
    right. split; [exact Hsome|]. exists c'. split; [|exact Hrest].
    apply (subRules_child r c c'); assumption. }
  change (Expr r) with expr. change (ID r) with id. change (Rules r) with cs.
  destruct (String.eqb_spec expr "") as [Hexpr|Hexpr]; simpl.
  - apply Hloop.
  - destruct (compileRule B env r) as [prg|err]; simpl; [|left; reflexivity].
    destruct (Hloop (storeProgram e id prg)) as [Hsame|Hnew]; [|right; exact Hnew].
    rewrite Hsame. simpl.
    destruct (decide (id = k)) as [<-|Hne].
    + right. split.
      * rewrite lookup_insert_eq. eexists. reflexivity.
      * exists r. split; [apply subRules_self|]. split; [reflexivity | exact Hexpr].
    + left. apply lookup_insert_ne. exact Hne.
Qed.

(** A rule of a tree is its root or a rule of the tree of a child rule. *)
Lemma subRules_inv (r c : Rule) :
  c ∈ subRules r -> c = r \/ exists ch, ch ∈ Rules r /\ c ∈ subRules ch.
Proof.
  destruct r as [id expr sch self action meta opts cs]. simpl. intros Hc.
  apply elem_of_cons in Hc. destruct Hc as [->|Hc]; [left; reflexivity|].
  right. apply list_elem_of_In, in_flat_map in Hc. destruct Hc as (ch & Hch & Hc).
  exists ch. split; apply list_elem_of_In; assumption.
Qed.

(** The registration of a rule tree removes no program. *)
Lemma addRuleWithSchema_keeps_programs (e : CELEngine) (r : Rule) (s : Schema) (k : string) :
  is_Some (programs e !! k) -> is_Some (programs (addRuleWithSchema B e r s).1 !! k).
Proof.
  intros Hk. destruct (addRuleWithSchema_programs r e s k) as [->|[Hsome _]]; assumption.
Qed.

(** The loop over the child rules removes no program. *)
Lemma addChildren_keeps_programs (s : Schema) (cs : list Rule) :
  forall (e : CELEngine) (k : string),
    is_Some (programs e !! k) ->
    is_Some (programs (addChildren (fun e c => addRuleWithSchema B e c s) cs e).1 !! k).
Proof.
  induction cs as [|c cs IH]; intros e k Hk; simpl; [exact Hk|].
  pose proof (addRuleWithSchema_keeps_programs e c s k Hk) as Hc.
  destruct (addRuleWithSchema B e c s) as [e1 [err|]]; simpl in *; [exact Hc|].
  apply IH, Hc.
Qed.

(** When the loop over the child rules succeeds, the program of every
    rule with an expression below a child rule is stored. *)
Lemma addChildren_stored (s : Schema) (cs : list Rule) :
  Forall (fun c => forall e s e1,
            addRuleWithSchema B e c s = (e1, None) ->
            forall c', c' ∈ subRules c -> Expr c' <> "" ->
                       is_Some (programs e1 !! ID c')) cs ->
  forall e e',
    addChildren (fun e c => addRuleWithSchema B e c s) cs e = (e', None) ->
    forall c c', c ∈ cs -> c' ∈ subRules c -> Expr c' <> "" ->
                 is_Some (programs e' !! ID c').
Proof.
  induction cs as [|c cs IH]; intros Hcs e e' Hrun c0 c' Hc0 Hc' Hexpr; simpl in Hrun;
    [inversion Hc0|].
  apply Forall_cons_1 in Hcs. destruct Hcs as [Hc Hcs].
  destruct (addRuleWithSchema B e c s) as [e1 [err|]] eqn:Hadd; [discriminate|].
  apply elem_of_cons in Hc0. destruct Hc0 as [->|Hc0].
  - replace e' with (addChildren (fun e c => addRuleWithSchema B e c s) cs e1).1
      by (rewrite Hrun; reflexivity).
    apply addChildren_keeps_programs. exact (Hc e s e1 Hadd c' Hc' Hexpr).
  - exact (IH Hcs e1 e' Hrun c0 c' Hc0 Hc' Hexpr).
Qed.

(** When the registration of a rule tree succeeds, the program of every
    rule of the tree that has an expression is stored. *)
Lemma addRuleWithSchema_stored (r : Rule) :
  forall (e : CELEngine) (s : Schema) (e1 : CELEngine),
    addRuleWithSchema B e r s = (e1, None) ->
    forall c, c ∈ subRules r -> Expr c <> "" -> is_Some (programs e1 !! ID c).
Proof.
  induction r as [id expr sch self action meta opts cs IH] using Rule_tree_ind.
  set (r := mkRule id expr sch self action meta opts cs) in *.
  intros e s e1. rewrite cel_facts.addRuleWithSchema_unfold.
  destruct (chooseSchema B r s) as [[[decls|] pass]|err]; try discriminate.
  destruct (NewEnv B decls) as [env|err]; [|discriminate].
  change (Expr r) with expr. change (ID r) with id. change (Rules r) with cs.
  intros Hrun c Hc Hexpr.
  assert (Hroot : forall e0, is_Some (programs e0 !! id) ->
            addChildren (fun e c => addRuleWithSchema B e c pass) cs e0 = (e1, None) ->
            is_Some (programs e1 !! id)).
  { intros e0 Hid Hloop.
    replace e1 with (addChildren (fun e c => addRuleWithSchema B e c pass) cs e0).1
      by (rewrite Hloop; reflexivity).
    apply addChildren_keeps_programs, Hid. }
  apply subRules_inv in Hc. destruct Hc as [->|(ch & Hch & Hc)].
  - simpl in Hexpr. destruct (String.eqb_spec expr "") as [Heq|Hne]; [contradiction|].
    simpl in Hrun. destruct (compileRule B env r) as [prg|err]; [|discriminate].
    simpl in Hrun. apply (Hroot (storeProgram e id prg)); [|exact Hrun].
    simpl. rewrite lookup_insert_eq. eexists. reflexivity.
  - destruct (negb (String.eqb expr "")).
    + destruct (compileRule B env r) as [prg|err]; [|discriminate].
      exact (addChildren_stored pass cs IH _ e1 Hrun ch c Hch Hc Hexpr).
    + exact (addChildren_stored pass cs IH _ e1 Hrun ch c Hch Hc Hexpr).
Qed.

(** Without a schema of its own and without an ambient one, a rule is not
    registered. *)
Lemma addRuleWithSchema_no_schema (e : CELEngine) (r : Rule) (s : Schema) :
  Elements (Rule_Schema r) = [] -> Elements s = [] ->
  addRuleWithSchema B e r s = (e, Some (NoValidSchema (ID r))).
Proof.
  intros Hown Hambient. rewrite cel_facts.addRuleWithSchema_unfold. unfold chooseSchema.
  rewrite Hown, Hambient. reflexivity.
Qed.

(** What [AddRule] does to the rule index, on success and on failure:
    under a key it leaves the rule that was there, or it has stored a rule
    of the list, whose ID is the key. *)
Lemma AddRule_rules_frame (rs : list Rule) :
  forall (e : CELEngine) (k : string),
    rules (AddRule B e rs).1 !! k = rules e !! k \/
    exists r, r ∈ rs /\ ID r = k /\ rules (AddRule B e rs).1 !! k = Some r.
Proof.
  induction rs as [|r rs IH]; intros e k; simpl; [left; reflexivity|].
  destruct (String.length (Trim (ID r) " ") =? 0)%nat; [left; reflexivity|].
  pose proof (cel_facts.addRuleWithSchema_rules B r e (Rule_Schema r)) as Hrules.
  destruct (addRuleWithSchema B e r (Rule_Schema r)) as [e1 [err|]]; simpl in *.
  - left. rewrite Hrules. reflexivity.
  - destruct (IH (storeRule e1 r) k) as [Hsame|(r1 & Hr1 & Hid & Hlook)].
    + rewrite Hsame. simpl. rewrite Hrules.
      destruct (decide (ID r = k)) as [<-|Hne].
      * right. exists r. split; [left|]. split; [reflexivity|].
        apply lookup_insert_eq.
      * left. apply lookup_insert_ne. exact Hne.
    + right. exists r1. split; [right; exact Hr1|]. split; assumption.
Qed.

(** What [AddRule] does to the program store, on success and on failure. *)
Lemma AddRule_programs_frame (rs : list Rule) :
  forall (e : CELEngine) (k : string),
    programs (AddRule B e rs).1 !! k = programs e !! k \/
    (is_Some (programs (AddRule B e rs).1 !! k) /\
     exists r c, r ∈ rs /\ c ∈ subRules r /\ ID c = k /\ Expr c <> "").
Proof.
  induction rs as [|r rs IH]; intros e k; simpl; [left; reflexivity|].
  destruct (String.length (Trim (ID r) " ") =? 0)%nat; [left; reflexivity|].
  pose proof (addRuleWithSchema_programs r e (Rule_Schema r) k) as Hprg.
  destruct (addRuleWithSchema B e r (Rule_Schema r)) as [e1 [err|]]; simpl in *.
  - destruct Hprg as [Hsame|(Hsome & c & Hc)]; [left; exact Hsame|].
    right. split; [exact Hsome|]. exists r, c. split; [left | exact Hc].
  - destruct (IH (storeRule e1 r) k) as [Hsame|(Hsome & r1 & c & Hr1 & Hc)].
    + rewrite Hsame. simpl.
      destruct Hprg as [Hsame1|(Hsome & c & Hc)]; [left; exact Hsame1|].
      right. split; [exact Hsome|]. exists r, c. split; [left | exact Hc].
    + right. split; [exact Hsome|]. exists r1, c. split; [right; exact Hr1 | exact Hc].
Qed.

(** [AddRule] leaves behind what it found.  Whether it succeeds or fails,
    [AddRule] removes nothing: under a key of the program store it leaves
    the program that was there, or it has stored one and the key is the ID
    of a rule with an expression in the tree of a rule it was given; under
    a key of the rule index it leaves the rule that was there, or it has
    stored one of the rules it was given, under the ID of that rule (a child
    rule does not enter the index). *)
Theorem AddRule_frame (e : CELEngine) (rs : list Rule) (k : string) :
  (programs (AddRule B e rs).1 !! k = programs e !! k \/
   (is_Some (programs (AddRule B e rs).1 !! k) /\
    exists r c, r ∈ rs /\ c ∈ subRules r /\ ID c = k /\ Expr c <> "")) /\
  (rules (AddRule B e rs).1 !! k = rules e !! k \/
   exists r, r ∈ rs /\ ID r = k /\ rules (AddRule B e rs).1 !! k = Some r).
Proof.
  split.
  - apply AddRule_programs_frame.
  - apply AddRule_rules_frame.
Qed.

(** [AddRule] removes no program and no rule. *)
Lemma AddRule_keeps (rs : list Rule) :
  forall (e : CELEngine) (k : string),
    (is_Some (programs e !! k) -> is_Some (programs (AddRule B e rs).1 !! k)) /\
    (is_Some (rules e !! k) -> is_Some (rules (AddRule B e rs).1 !! k)).
Proof.
  induction rs as [|r rs IH]; intros e k; simpl; [tauto|].
  destruct (String.length (Trim (ID r) " ") =? 0)%nat; [tauto|].
  pose proof (addRuleWithSchema_keeps_programs e r (Rule_Schema r) k) as Hprg.
  pose proof (cel_facts.addRuleWithSchema_rules B r e (Rule_Schema r)) as Hrules.
  destruct (addRuleWithSchema B e r (Rule_Schema r)) as [e1 [err|]]; simpl in *.
  - rewrite Hrules. tauto.
  - destruct (IH (storeRule e1 r) k) as [IHp IHr]. simpl in *. split.
    + intros Hk. apply IHp, Hprg, Hk.
    + intros Hk. apply IHr. rewrite Hrules.
      destruct (decide (ID r = k)) as [<-|Hne].
      * rewrite lookup_insert_eq. eexists. reflexivity.
      * rewrite lookup_insert_ne by exact Hne. exact Hk.
Qed.

(** What a successful [AddRule] leaves in the engine.  When [AddRule]
    returns no error, every rule it was given has an ID that is not blank
    and a schema of its own with an element; [Rule] finds, under the ID of
    each, a rule of the list with that ID (the rule itself when no two
    rules of the list share an ID); and the program of every rule with an
    expression, in the trees of the rules given, is stored under the ID of
    that rule. *)
Theorem AddRule_success (rs : list Rule) :
  forall (e e' : CELEngine),
    AddRule B e rs = (e', None) ->
    forall r, r ∈ rs ->
      Trim (ID r) " " <> "" /\ Elements (Rule_Schema r) <> [] /\
      (exists r', r' ∈ rs /\ ID r' = ID r /\ Rule_ e' (ID r) = Some r') /\
      (NoDup (map ID rs) -> Rule_ e' (ID r) = Some r) /\
      (forall c, c ∈ subRules r -> Expr c <> "" -> is_Some (programs e' !! ID c)).
Proof.
  induction rs as [|r0 rs IH]; intros e e' Hrun r Hr; [inversion Hr|].
  simpl in Hrun.
  destruct (String.length (Trim (ID r0) " ") =? 0)%nat eqn:Hblank; [discriminate|].
  destruct (addRuleWithSchema B e r0 (Rule_Schema r0)) as [e1 [err|]] eqn:Hadd;
    [discriminate|].
  assert (He' : e' = (AddRule B (storeRule e1 r0) rs).1) by (rewrite Hrun; reflexivity).
  apply elem_of_cons in Hr. destruct Hr as [->|Hr].
  - split.
    { intros Hempty. rewrite Hempty in Hblank. discriminate. }
    split.
    { intros Hnil.
      rewrite (addRuleWithSchema_no_schema e r0 (Rule_Schema r0) Hnil Hnil) in Hadd.
      discriminate. }
    assert (Hfound : exists r', r' ∈ r0 :: rs /\ ID r' = ID r0 /\
                                Rule_ e' (ID r0) = Some r' /\
                                (ID r0 ∉ map ID rs -> r' = r0)).
    { destruct (decide (ID r0 ∈ map ID rs)) as [Hin|Hnotin].
      - apply list_elem_of_fmap in Hin. destruct Hin as (r1 & Hid & Hr1).
        destruct (IH _ _ Hrun r1 Hr1) as (_ & _ & (r' & Hr' & Hid' & Hlook) & _).
        exists r'. split; [right; exact Hr'|]. split; [congruence|].
        split; [rewrite Hid; exact Hlook|].
        intros Hnot. destruct Hnot. apply list_elem_of_fmap. exists r1. tauto.
      - exists r0. split; [left|]. split; [reflexivity|]. split; [|reflexivity].
        unfold Rule_. rewrite He'.
        destruct (AddRule_rules_frame rs (storeRule e1 r0) (ID r0))
          as [Hsame|(r1 & Hr1 & Hid & _)].
        + rewrite Hsame. simpl. apply lookup_insert_eq.
        + destruct Hnotin. apply list_elem_of_fmap. exists r1. split; [congruence | exact Hr1]. }
    destruct Hfound as (r' & Hr' & Hid & Hlook & Huniq).
    split; [exists r'; tauto|]. split.
    { intros Hnodup. apply NoDup_cons in Hnodup. rewrite Hlook, (Huniq (proj1 Hnodup)).
      reflexivity. }
    intros c Hc Hexpr. rewrite He'. apply AddRule_keeps. simpl.
    exact (addRuleWithSchema_stored r0 e _ e1 Hadd c Hc Hexpr).
  - destruct (IH _ _ Hrun r Hr) as (Hid & Hsch & (r' & Hr' & Hrest) & Huniq & Hprg).
    split; [exact Hid|]. split; [exact Hsch|].
    split; [exists r'; split; [right; exact Hr' | exact Hrest]|].
    split; [|exact Hprg].
    intros Hnodup. apply NoDup_cons in Hnodup. apply Huniq, Hnodup.
Qed.

(** An engine is what its two maps are. *)
Lemma CELEngine_eq (a b : CELEngine) :
  rules a = rules b -> programs a = programs b -> a = b.
Proof. destruct a, b. simpl. intros -> ->. reflexivity. Qed.

(** The loop over the child rules adds to the program store what it adds
    to an empty one, and fails when it fails on an empty one. *)
Lemma addChildren_union (s : Schema) (cs : list Rule) :
  Forall (fun c => forall s e,
            programs (addRuleWithSchema B e c s).1
            = programs (addRuleWithSchema B NewEngine c s).1 ∪ programs e /\
            (addRuleWithSchema B e c s).2 = (addRuleWithSchema B NewEngine c s).2) cs ->
  forall e,
    programs (addChildren (fun e c => addRuleWithSchema B e c s) cs e).1
    = programs (addChildren (fun e c => addRuleWithSchema B e c s) cs NewEngine).1
      ∪ programs e /\
    (addChildren (fun e c => addRuleWithSchema B e c s) cs e).2
    = (addChildren (fun e c => addRuleWithSchema B e c s) cs NewEngine).2.
Proof.
  induction cs as [|c cs IH]; intros Hcs e; simpl.
  - split; [|reflexivity]. symmetry. apply (left_id_L ∅ (∪)).
  - apply Forall_cons_1 in Hcs. destruct Hcs as [Hc Hcs].
    destruct (Hc s e) as [Hprg Herr].
    destruct (addRuleWithSchema B e c s) as [e1 err1].
    destruct (addRuleWithSchema B NewEngine c s) as [e1' err1']. simpl in Hprg, Herr.
    subst err1'. destruct err1 as [err|]; simpl.
    + split; [exact Hprg | reflexivity].
    + destruct (IH Hcs e1) as [Hp1 He1]. destruct (IH Hcs e1') as [Hp1' He1'].
      split; [|congruence].
      rewrite Hp1, Hp1', Hprg. apply (assoc_L (∪)).
Qed.

(** The registration of a rule tree adds to the program store what it adds
    to an empty one, and fails when it fails on an empty engine: it reads
    nothing of the engine. *)
Lemma addRuleWithSchema_union (r : Rule) :
  forall (s : Schema) (e : CELEngine),
    programs (addRuleWithSchema B e r s).1
    = programs (addRuleWithSchema B NewEngine r s).1 ∪ programs e /\
    (addRuleWithSchema B e r s).2 = (addRuleWithSchema B NewEngine r s).2.
Proof.
  induction r as [id expr sch self action meta opts cs IH] using Rule_tree_ind.
  set (r := mkRule id expr sch self action meta opts cs) in *.
  intros s e. rewrite !cel_facts.addRuleWithSchema_unfold.
  assert (Hnone : programs e = programs NewEngine ∪ programs e)
    by (symmetry; apply (left_id_L ∅ (∪))).
  destruct (chooseSchema B r s) as [[[decls|] pass]|err]; try (split; [exact Hnone | reflexivity]).
  destruct (NewEnv B decls) as [env|err]; [|split; [exact Hnone | reflexivity]].
  change (Rules r) with cs.
  destruct (negb (String.eqb (Expr r) "")).
  - destruct (compileRule B env r) as [prg|err]; simpl; [|split; [exact Hnone | reflexivity]].
    destruct (addChildren_union pass cs IH (storeProgram e (ID r) prg)) as [Hp He].
    destruct (addChildren_union pass cs IH (storeProgram NewEngine (ID r) prg)) as [Hp0 He0].
    change (ID r) with id in Hp, He, Hp0, He0.
    split; [|congruence].
    rewrite Hp, Hp0. simpl. rewrite insert_empty, insert_union_singleton_l.
    apply (assoc_L (∪)).
  - simpl. apply (addChildren_union pass cs IH e).
Qed.

(** [AddRule] adds to the two maps of the engine what it adds to empty
    ones, and fails when it fails on an empty engine. *)
Lemma AddRule_union (rs : list Rule) :
  forall e,
    programs (AddRule B e rs).1 = programs (AddRule B NewEngine rs).1 ∪ programs e /\
    rules (AddRule B e rs).1 = rules (AddRule B NewEngine rs).1 ∪ rules e /\
    (AddRule B e rs).2 = (AddRule B NewEngine rs).2.
Proof.
  induction rs as [|r rs IH]; intros e; simpl.
  - repeat split; symmetry; apply (left_id_L ∅ (∪)).
  - destruct (String.length (Trim (ID r) " ") =? 0)%nat; simpl.
    { repeat split; symmetry; apply (left_id_L ∅ (∪)). }
    destruct (addRuleWithSchema_union r (Rule_Schema r) e) as [Hprg Herr].
    pose proof (cel_facts.addRuleWithSchema_rules B r e (Rule_Schema r)) as Hrules.
    pose proof (cel_facts.addRuleWithSchema_rules B r NewEngine (Rule_Schema r)) as Hrules0.
    destruct (addRuleWithSchema B e r (Rule_Schema r)) as [e1 err1].
    destruct (addRuleWithSchema B NewEngine r (Rule_Schema r)) as [e1' err1'].
    simpl in Hprg, Herr, Hrules, Hrules0. subst err1'. destruct err1 as [err|]; simpl.
    + rewrite Hrules, Hrules0. split; [exact Hprg|].
      split; [symmetry; apply (left_id_L ∅ (∪)) | reflexivity].
    + destruct (IH (storeRule e1 r)) as (Hp1 & Hr1 & He1).
      destruct (IH (storeRule e1' r)) as (Hp1' & Hr1' & He1').
      split; [|split; [|congruence]].
      * rewrite Hp1, Hp1'. simpl. rewrite Hprg. apply (assoc_L (∪)).
      * rewrite Hr1, Hr1'. simpl. rewrite Hrules, Hrules0.
        rewrite insert_empty, insert_union_singleton_l. apply (assoc_L (∪)).
Qed.

(** Registering again changes nothing.  Whatever a call of [AddRule]
    returned, and whatever it left in the engine, the same call on the
    engine it left returns the same and leaves the engine as it is. *)
Theorem AddRule_idempotent (e e1 : CELEngine) (rs : list Rule) (err : option error) :
  AddRule B e rs = (e1, err) ->
  AddRule B e1 rs = (e1, err).
Proof.
  intros Hrun.
  destruct (AddRule_union rs e) as (Hp & Hr & He).
  destruct (AddRule_union rs e1) as (Hp1 & Hr1 & He1).
  rewrite Hrun in Hp, Hr, He. simpl in Hp, Hr, He.
  destruct (AddRule B e1 rs) as [e2 err2]. simpl in Hp1, Hr1, He1.
  f_equal; [|congruence].
  apply CELEngine_eq.
  - rewrite Hr1, Hr, (assoc_L (∪)), (idemp_L (∪)). reflexivity.
  - rewrite Hp1, Hp, (assoc_L (∪)), (idemp_L (∪)). reflexivity.
Qed.

(** What is registered does not make a registration fail.  [AddRule]
    returns the same error, or none, on every engine: there is no check
    for an ID that is taken.  And the two maps of the engine it leaves
    hold what the same call writes into the maps of an empty engine, in
    the place of what the engine held under those keys, and under every
    other key what the engine held. *)
Theorem AddRule_outcome_independent_of_engine (e e' : CELEngine) (rs : list Rule) :
  (AddRule B e rs).2 = (AddRule B e' rs).2 /\
  rules (AddRule B e rs).1 = rules (AddRule B NewEngine rs).1 ∪ rules e /\
  programs (AddRule B e rs).1 = programs (AddRule B NewEngine rs).1 ∪ programs e.
Proof.
  destruct (AddRule_union rs e) as (Hprograms & Hrules & ->).
  destruct (AddRule_union rs e') as (_ & _ & ->).
  split; [reflexivity|]. split; [exact Hrules | exact Hprograms].
Qed.

(** Trimming leaves the empty string empty. *)
Lemma Trim_nonblank_nonempty (s : string) : Trim s " " <> "" -> s <> "".
Proof. intros Hs ->. apply Hs. reflexivity. Qed.

(** What the success of [AddRule] on one rule says. *)
Lemma AddRule_single_success (e e1 : CELEngine) (r : Rule) :
  AddRule B e [r] = (e1, None) ->
  Trim (ID r) " " <> "" /\
  exists e0, addRuleWithSchema B e r (Rule_Schema r) = (e0, None) /\ e1 = storeRule e0 r.
Proof.
  simpl. destruct (String.length (Trim (ID r) " ") =? 0)%nat eqn:Hblank; [discriminate|].
  destruct (addRuleWithSchema B e r (Rule_Schema r)) as [e0 [err|]]; [discriminate|].
  intros [= <-]. split.
  - intros Hempty. rewrite Hempty in Hblank. discriminate.
  - exists e0. split; reflexivity.
Qed.

(** [Calculate] does not fault: when it finds no program under the
    expression and [AddRule] succeeds, the program that [AddRule] compiled
    is in the store, so the program that [Calculate] goes on to call is
    never nil. *)
Theorem Calculate_never_faults (e : CELEngine) (data : Data) (expr : string)
  (schema : Schema) :
  (Calculate B e data expr schema).2 <> Panic.
Proof.
  rewrite cel_facts.Calculate_unfold.
  destruct (programs e !! expr) as [prg|] eqn:Hprg.
  - simpl. destruct (prg data) as [v [err|]]; [discriminate|].
    destruct (assertFloat64 v) as [f [|]]; discriminate.
  - set (r := mkRule expr expr schema Nil Nil Nil [] []).
    destruct (AddRule B e [r]) as [e1 [err|]] eqn:Hadd; [discriminate|].
    destruct (AddRule_single_success e e1 r Hadd) as (Hid & e0 & Hadd0 & ->).
    destruct (addRuleWithSchema_stored r e _ e0 Hadd0 r (subRules_self r)
                (Trim_nonblank_nonempty _ Hid)) as [prg Hfound].
    simpl in Hfound |- *. rewrite Hfound. simpl.
    destruct (prg data) as [v [err|]]; [discriminate|].
    destruct (assertFloat64 v) as [f [|]]; discriminate.
Qed.

(** A stored program is used as it is.  When a program is stored under the
    expression text, [Calculate] compiles nothing and registers nothing: it
    leaves the engine as it is and returns the same for every schema it is
    given and every backend. *)
Theorem Calculate_uses_stored_program (e : CELEngine) (data : Data) (expr : string)
  (schema : Schema) (prg : Program) :
  programs e !! expr = Some prg ->
  (Calculate B e data expr schema).1 = e /\
  forall (B' : Backend) (schema' : Schema),
    Calculate B' e data expr schema' = Calculate B e data expr schema.
Proof.
  intros Hprg. split.
  - rewrite cel_facts.Calculate_unfold, Hprg. simpl.
    destruct (prg data) as [v [err|]]; [reflexivity|].
    destruct (assertFloat64 v) as [f [|]]; reflexivity.
  - intros B' schema'. rewrite !cel_facts.Calculate_unfold, Hprg. reflexivity.
Qed.

(** A call that returns a value leaves the program stored.  When
    [Calculate] returns a value and no error, the engine it leaves holds a
    program under the expression text, so the next call with that
    expression finds it. *)
Theorem Calculate_stores_program (e : CELEngine) (data : Data) (expr : string)
  (schema : Schema) (f : float) :
  (Calculate B e data expr schema).2 = Done (f, None) ->
  is_Some (programs (Calculate B e data expr schema).1 !! expr).
Proof.
  rewrite cel_facts.Calculate_unfold.
  destruct (programs e !! expr) as [prg|] eqn:Hprg.
  - simpl. intros _.
    destruct (prg data) as [v [err|]]; [simpl; rewrite Hprg; eexists; reflexivity|].
    destruct (assertFloat64 v) as [f0 [|]]; simpl; rewrite Hprg; eexists; reflexivity.
  - set (r := mkRule expr expr schema Nil Nil Nil [] []).
    destruct (AddRule B e [r]) as [e1 [err|]] eqn:Hadd; [discriminate|].
    destruct (AddRule_single_success e e1 r Hadd) as (Hid & e0 & Hadd0 & ->).
    destruct (addRuleWithSchema_stored r e _ e0 Hadd0 r (subRules_self r)
                (Trim_nonblank_nonempty _ Hid)) as [prg Hfound].
    simpl in Hfound |- *. rewrite Hfound. simpl. intros _.
    destruct (prg data) as [v [err|]]; [simpl; rewrite Hfound; eexists; reflexivity|].
    destruct (assertFloat64 v) as [f0 [|]]; simpl; rewrite Hfound; eexists; reflexivity.
Qed.

(** The loop of [schemaToDeclarations] declares the elements one by one, in
    their order, after the items it starts from. *)
Lemma declareElements_each (ds : list DataElement) :
  forall (items decls : list exprbp_Decl),
    declareElements B ds items = inl decls ->
    exists new : list exprbp_Decl,
      decls = (items ++ new)%list /\
      Forall2 (fun d decl => Decl_Name decl = Name d /\
                             celType B (DataElement_Type d) = inl (Decl_Type decl))
              ds new.
Proof.
  induction ds as [|d ds IH]; intros items decls Hrun; simpl in Hrun.
  - injection Hrun as <-. exists []. split; [symmetry; apply app_nil_r | constructor].
  - destruct (celType B (DataElement_Type d)) as [typ|err] eqn:Htyp; [|discriminate].
    destruct (IH _ _ Hrun) as (new & -> & Hnew).
    exists (decls_NewIdent (Name d) typ :: new). split.
    + rewrite <- app_assoc. reflexivity.
    + constructor; [split; [reflexivity | exact Htyp] | exact Hnew].
Qed.

(** One declaration for each element.  The declarations that
    [schemaToDeclarations] returns are those of the elements of the schema,
    one for each and in their order: the declaration has the name of the
    element and the CEL type of its type; names that occur twice are
    declared twice. *)
Theorem schemaToDeclarations_each_element (s : Schema) (decls : EnvOption) :
  schemaToDeclarations B s = inl decls ->
  Forall2 (fun d decl => Decl_Name decl = Name d /\
                         celType B (DataElement_Type d) = inl (Decl_Type decl))
          (Elements s) decls /\
  map Decl_Name decls = map Name (Elements s).
Proof.
  intros Hrun. apply declareElements_each in Hrun. destruct Hrun as (new & -> & Hnew).
  simpl. split; [exact Hnew|].
  induction Hnew as [|d decl ds new [Hname _] _ IH]; simpl; [reflexivity|].
  rewrite Hname, IH. reflexivity.
Qed.



End Registration_coverage.

(** ** The further properties of the registration at concrete inputs *)

(** A successful [AddRule], at a rule with a schema and a child rule with
    an expression. *)
Lemma AddRule_success_witness :
  let child := node "child" "x > 5" [] in
  let parent := mkRule "parent" "" (schemaOf Int ["x"]) Nil Nil Nil [] [child] in
  exists e',
    AddRule testBackend NewEngine [parent] = (e', None) /\
    Rule_ e' "parent" = Some parent /\
    Rule_ e' "child" = None /\
    is_Some (programs e' !! "child").
Proof.
  intros child parent. eexists. split; [reflexivity|].
  match goal with |- Rule_ ?e' _ = _ /\ _ =>
    destruct (AddRule_success testBackend [parent] NewEngine e' eq_refl parent)
      as (_ & _ & _ & Huniq & Hstored); [left|]
  end.
  split.
  - apply Huniq. repeat constructor. intros Hin. inversion Hin.
  - split; [reflexivity|].
    apply (Hstored child); [|discriminate].
    simpl. right. left.
Defined.

(** Registering again, at the same rule. *)
Lemma AddRule_idempotent_witness :
  let child := node "child" "x > 5" [] in
  let parent := mkRule "parent" "" (schemaOf Int ["x"]) Nil Nil Nil [] [child] in
  exists e1,
    AddRule testBackend NewEngine [parent] = (e1, None) /\
    AddRule testBackend e1 [parent] = (e1, None).
Proof.
  intros child parent. eexists. split; [reflexivity|].
  apply (AddRule_idempotent testBackend NewEngine). reflexivity.
Defined.

(** A stored program is used as it is, at the program of [a+b] and a
    schema without elements, which [AddRule] would refuse. *)
Lemma Calculate_uses_stored_program_witness :
  let e := engineWith "a+b" sumProgram in
  let data : Data := {[ "a" := IFloat64 2%float; "b" := IFloat64 3%float ]} in
  programs e !! "a+b" = Some sumProgram /\
  Calculate testBackend e data "a+b" noSchema = (e, Done (5%float, None)) /\
  forall B' schema', Calculate B' e data "a+b" schema' = (e, Done (5%float, None)).
Proof.
  intros e data.
  assert (Hprg : programs e !! "a+b" = Some sumProgram) by reflexivity.
  split; [exact Hprg|]. split; [reflexivity|].
  intros B' schema'.
  rewrite (proj2 (Calculate_uses_stored_program testBackend e data "a+b" noSchema
                    sumProgram Hprg) B' schema').
  reflexivity.
Defined.

(** A call that returns a value leaves the program stored, at [a+b] over
    two floats. *)
Lemma Calculate_stores_program_witness :
  let data : Data := {[ "a" := IFloat64 2%float; "b" := IFloat64 3%float ]} in
  let schema := schemaOf Float ["a"; "b"] in
  (Calculate testBackend NewEngine data "a+b" schema).2 = Done (5%float, None) /\
  is_Some (programs (Calculate testBackend NewEngine data "a+b" schema).1 !! "a+b").
Proof.
  intros data schema.
  assert (Hrun : (Calculate testBackend NewEngine data "a+b" schema).2
                 = Done (5%float, None)) by reflexivity.
  split; [exact Hrun|].
  exact (Calculate_stores_program testBackend NewEngine data "a+b" schema 5%float Hrun).
Defined.

(** One declaration for each element, at a schema of two elements. *)
Lemma schemaToDeclarations_each_element_witness :
  let s := mkSchema "" [mkDataElement "x" Int; mkDataElement "tags" (List String)] in
  let decls := [decls_NewIdent "x" decls_Int;
                decls_NewIdent "tags" (decls_NewListType decls_String)] in
  schemaToDeclarations testBackend s = inl decls /\
  map Decl_Name decls = ["x"; "tags"].
Proof.
  intros s decls.
  assert (Hrun : schemaToDeclarations testBackend s = inl decls) by reflexivity.
  split; [exact Hrun|].
  exact (proj2 (schemaToDeclarations_each_element testBackend s decls Hrun)).
Defined.


End cel_coverage.

(** * Which schema a rule is compiled against *)
Module cel_schema_facts.
Import cel examples policy trees.

Section Schema_facts.

Variable B : Backend.

(** The rules of the tree, each with the schema that governs it. *)
Lemma governed_unfold (r : Rule) (s : Schema) :
  governed r s =
  (r, governing s r) :: flat_map (fun c => governed c (governing s r)) (Rules r).
Proof. destruct r. reflexivity. Qed.

(** The first block of [addRuleWithSchema] chooses the schema that governs
    the rule. *)
Lemma chooseSchema_governing (r : Rule) (s : Schema) :
  chooseSchema B r s =
  match Elements (governing s r) with
  | [] => inl (None, mkSchema "" [])
  | _ :: _ =>
    match schemaToDeclarations B (governing s r) with
    | inr err => inr err
    | inl decls => inl (Some decls, governing s r)
    end
  end.
Proof.
  unfold chooseSchema, governing.
  destruct (Elements (Rule_Schema r)) as [|d ds] eqn:Hr; simpl.
  - destruct (Elements s); reflexivity.
  - rewrite Hr. reflexivity.
Qed.

(** What [compileRule] gives in the environment of a schema is the
    expression compiled against the schema. *)
Lemma compileRule_programAgainst (sch : Schema) (env : Env B) (r : Rule) :
  environment B sch = Some env ->
  programAgainst B sch r =
  match compileRule B env r with
  | inl prg => Some prg
  | inr _ => None
  end.
Proof.
  intros Henv. unfold programAgainst, compileRule. rewrite Henv.
  destruct (Parse B env (Expr r)) as [ast [err|]]; [reflexivity|].
  destruct (Check B env ast) as [checked [err|]]; [reflexivity|].
  destruct (EnvProgram B env checked) as [prg|err]; reflexivity.
Qed.

(** A property holds of the concatenated lists when it holds of each. *)
Lemma Forall_flat_map_each {A C : Type} (P : C -> Prop) (f : A -> list C) (l : list A) :
  Forall P (flat_map f l) <-> Forall (fun x => Forall P (f x)) l.
Proof.
  induction l as [|x l IH]; simpl.
  - split; intros _; constructor.
  - rewrite Forall_app, IH, Forall_cons. reflexivity.
Qed.

(** The loop over the child rules returns no error exactly when every
    child rule does. *)
Lemma addChildren_no_error (P : Rule -> Schema -> Prop) (pass : Schema) (cs : list Rule) :
  Forall (fun c => forall e s, (addRuleWithSchema B e c s).2 = None <-> P c s) cs ->
  forall e,
    (addChildren (fun e c => addRuleWithSchema B e c pass) cs e).2 = None <->
    Forall (fun c => P c pass) cs.
Proof.
  induction cs as [|c cs IH]; intros Hcs e; simpl.
  - split; [constructor | reflexivity].
  - apply Forall_cons_1 in Hcs. destruct Hcs as [Hc Hcs].
    rewrite Forall_cons, <- (Hc e pass).
    destruct (addRuleWithSchema B e c pass) as [e1 [err|]]; simpl.
    + split; [discriminate | intros [Hno _]; discriminate].
    + rewrite (IH Hcs e1). tauto.
Qed.

(** [addRuleWithSchema] returns no error exactly when every rule of the
    tree can be registered under the schema that governs it. *)
Lemma addRuleWithSchema_no_error (r : Rule) :
  forall (e : CELEngine) (s : Schema),
    (addRuleWithSchema B e r s).2 = None <-> Forall (registrable B) (governed r s).
Proof.
  induction r as [id expr sch self action meta opts cs IH] using Rule_tree_ind.
  set (r := mkRule id expr sch self action meta opts cs) in *.
  intros e s.
  rewrite governed_unfold, Forall_cons, Forall_flat_map_each.
  rewrite cel_facts.addRuleWithSchema_unfold, chooseSchema_governing.
  unfold registrable at 1. simpl fst. simpl snd.
  change (Rules r) with cs.
  pose proof (compileRule_programAgainst (governing s r)) as Hprg.
  unfold environment in *.
  destruct (Elements (governing s r)) as [|d ds] eqn:Helems.
  { simpl. split; [discriminate | intros [[Hne _] _]; destruct Hne; reflexivity]. }
  destruct (schemaToDeclarations B (governing s r)) as [decls|err].
  2: { simpl. split; [discriminate | intros [(_ & [env Henv] & _) _]; discriminate]. }
  destruct (NewEnv B decls) as [env|err].
  2: { simpl. split; [discriminate | intros [(_ & [env Henv] & _) _]; discriminate]. }
  specialize (Hprg env r eq_refl).
  change (Expr r) with expr in *.
  destruct (String.eqb_spec expr "") as [Hexpr|Hexpr]; simpl.
  - rewrite (addChildren_no_error (fun c s => Forall (registrable B) (governed c s))
               (governing s r) cs IH e).
    split; [|tauto]. intros Hcs. split; [|exact Hcs].
    split; [discriminate|]. split; [eexists; reflexivity|].
    intros Hne. destruct (Hne Hexpr).
  - rewrite Hprg. destruct (compileRule B env r) as [prg|err]; simpl.
    + rewrite (addChildren_no_error (fun c s => Forall (registrable B) (governed c s))
                 (governing s r) cs IH _).
      split; [|tauto]. intros Hcs. split; [|exact Hcs].
      split; [discriminate|]. split; eexists; reflexivity.
    + split; [discriminate|]. intros [(_ & _ & Hsome) _].
      destruct (Hsome Hexpr) as [prg Hnone]. discriminate.
Qed.

(** A rule of the list of governed rules is a rule of the tree. *)
Lemma governed_subRules (r : Rule) :
  forall (s : Schema) (c : Rule) (sch : Schema),
    (c, sch) ∈ governed r s -> c ∈ subRules r.
Proof.
  induction r as [id expr sch0 self action meta opts cs IH] using Rule_tree_ind.
  set (r := mkRule id expr sch0 self action meta opts cs) in *.
  intros s c sch Hin. rewrite governed_unfold in Hin.
  apply elem_of_cons in Hin. destruct Hin as [[= -> _]|Hin].
  - apply cel_coverage.subRules_self.
  - apply list_elem_of_In, in_flat_map in Hin. destruct Hin as (ch & Hch & Hin).
    apply list_elem_of_In in Hch, Hin. rewrite Forall_forall in IH.
    apply (cel_coverage.subRules_child r ch c Hch).
    exact (IH ch Hch _ _ _ Hin).
Qed.

(** The ID of a rule below a rule of the list is an ID of the rules below
    the list. *)
Lemma subRules_ID (cs : list Rule) (c c' : Rule) :
  c ∈ cs -> c' ∈ subRules c -> ID c' ∈ map ID (flat_map subRules cs).
Proof.
  intros Hc Hc'. apply list_elem_of_In, in_map, in_flat_map.
  exists c. split; apply list_elem_of_In; assumption.
Qed.

(** The loop over the child rules leaves a program alone whose ID is not
    the ID of a rule below the child rules. *)
Lemma addChildren_other_programs (pass : Schema) (cs : list Rule) (e : CELEngine)
  (k : string) :
  k ∉ map ID (flat_map subRules cs) ->
  programs (addChildren (fun e c => addRuleWithSchema B e c pass) cs e).1 !! k
  = programs e !! k.
Proof.
  intros Hk.
  assert (Hcs : Forall (fun c => forall e s k,
            programs (addRuleWithSchema B e c s).1 !! k = programs e !! k \/
            (is_Some (programs (addRuleWithSchema B e c s).1 !! k) /\
             exists c', c' ∈ subRules c /\ ID c' = k /\ Expr c' <> "")) cs).
  { apply Forall_forall. intros c _. apply cel_coverage.addRuleWithSchema_programs. }
  destruct (cel_coverage.addChildren_programs B pass cs Hcs e k)
    as [Hsame|(_ & c & c' & Hc & Hc' & Hid & _)]; [exact Hsame|].
  destruct Hk. rewrite <- Hid. exact (subRules_ID cs c c' Hc Hc').
Qed.

(** After the loop over the child rules, the engine holds for each rule
    below them its expression compiled against the schema that governs
    it. *)
Lemma addChildren_compiled (pass : Schema) (cs : list Rule) :
  Forall (fun c => forall e s e',
            addRuleWithSchema B e c s = (e', None) ->
            NoDup (map ID (subRules c)) ->
            forall c' sch, (c', sch) ∈ governed c s -> Expr c' <> "" ->
              exists prg, programAgainst B sch c' = Some prg /\
                          programs e' !! ID c' = Some prg) cs ->
  forall e e',
    addChildren (fun e c => addRuleWithSchema B e c pass) cs e = (e', None) ->
    NoDup (map ID (flat_map subRules cs)) ->
    forall c c' sch, c ∈ cs -> (c', sch) ∈ governed c pass -> Expr c' <> "" ->
      exists prg, programAgainst B sch c' = Some prg /\
                  programs e' !! ID c' = Some prg.
Proof.
  induction cs as [|c0 cs IH]; intros Hcs e e' Hrun Hnodup c c' sch Hc Hin Hexpr;
    [inversion Hc|].
  apply Forall_cons_1 in Hcs. destruct Hcs as [Hc0 Hcs].
  simpl in Hrun, Hnodup. rewrite map_app in Hnodup.
  apply NoDup_app in Hnodup. destruct Hnodup as (Hnodup0 & Hdisjoint & Hnodup).
  destruct (addRuleWithSchema B e c0 pass) as [e1 [err|]] eqn:Hadd; [discriminate|].
  apply elem_of_cons in Hc. destruct Hc as [->|Hc].
  - destruct (Hc0 e pass e1 Hadd Hnodup0 c' sch Hin Hexpr) as (prg & Hprg & Hstored).
    exists prg. split; [exact Hprg|].
    pose proof (addChildren_other_programs pass cs e1 (ID c')) as Hkeep.
    rewrite Hrun in Hkeep. simpl in Hkeep. rewrite Hkeep; [exact Hstored|].
    apply Hdisjoint. apply list_elem_of_In, in_map, list_elem_of_In.
    exact (governed_subRules c0 pass c' sch Hin).
  - exact (IH Hcs e1 e' Hrun Hnodup c c' sch Hc Hin Hexpr).
Qed.

(** After a registration without error, the engine holds for each rule of
    the tree that has an expression the expression compiled against the
    schema that governs the rule. *)
Lemma addRuleWithSchema_compiled (r : Rule) :
  forall (e : CELEngine) (s : Schema) (e' : CELEngine),
    addRuleWithSchema B e r s = (e', None) ->
    NoDup (map ID (subRules r)) ->
    forall c sch, (c, sch) ∈ governed r s -> Expr c <> "" ->
      exists prg, programAgainst B sch c = Some prg /\
                  programs e' !! ID c = Some prg.
Proof.
  induction r as [id expr sch0 self action meta opts cs IH] using Rule_tree_ind.
  set (r := mkRule id expr sch0 self action meta opts cs) in *.
  intros e s e' Hrun Hnodup c sch Hin Hexpr.
  change (subRules r) with (r :: flat_map subRules cs) in Hnodup.
  simpl in Hnodup. apply NoDup_cons in Hnodup. destruct Hnodup as [Hfresh Hnodup].
  rewrite cel_facts.addRuleWithSchema_unfold, chooseSchema_governing in Hrun.
  pose proof (compileRule_programAgainst (governing s r)) as Hprg.
  unfold environment in Hprg.
  destruct (Elements (governing s r)) as [|d ds]; [discriminate|].
  destruct (schemaToDeclarations B (governing s r)) as [decls|err]; [|discriminate].
  destruct (NewEnv B decls) as [env|err]; [|discriminate].
  specialize (Hprg env r eq_refl).
  change (Expr r) with expr in *. change (ID r) with id in *. change (Rules r) with cs in *.
  rewrite governed_unfold in Hin. apply elem_of_cons in Hin.
  destruct Hin as [[= -> ->]|Hin].
  - change (Expr r) with expr in Hexpr. change (ID r) with id.
    destruct (String.eqb_spec expr "") as [Hempty|_]; [destruct (Hexpr Hempty)|].
    simpl in Hrun. destruct (compileRule B env r) as [prg|err]; [|discriminate].
    exists prg. split; [exact Hprg|].
    pose proof (addChildren_other_programs (governing s r) cs (storeProgram e id prg) id
                  Hfresh) as Hkeep.
    rewrite Hrun in Hkeep. simpl in Hkeep. rewrite Hkeep. apply lookup_insert_eq.
  - apply list_elem_of_In, in_flat_map in Hin. destruct Hin as (ch & Hch & Hin).
    apply list_elem_of_In in Hch, Hin.
    destruct (negb (String.eqb expr "")).
    + destruct (compileRule B env r) as [prg|err]; [|discriminate].
      exact (addChildren_compiled (governing s r) cs IH _ e' Hrun Hnodup ch c sch
               Hch Hin Hexpr).
    + exact (addChildren_compiled (governing s r) cs IH _ e' Hrun Hnodup ch c sch
               Hch Hin Hexpr).
Qed.

(** C6.  Registration of the rule [r] with the ambient schema [s].  The
    schema that governs a rule is its own schema if that has an element
    and its ambient schema otherwise, and it is the ambient schema of the
    child rules of the rule; [governed r s] lists the rules of the tree of
    [r] with the schema that governs each of them.
    If neither the schema of [r] nor [s] has an element, the registration
    returns the error "No valid schema for rule" with the ID of [r] and
    leaves the engine as it was, whether or not [r] has an expression.
    The registration returns no error exactly when every rule of the tree
    has a governing schema with an element, of which cel-go makes an
    environment, and an expression that is empty or compiles against that
    schema.  And after a registration without error of a tree with
    distinct IDs, the engine holds under the ID of each rule of the tree
    that has an expression the program that cel-go makes of the expression
    in the environment of the schema that governs the rule. *)
Theorem schema_inheritance (e : CELEngine) (r : Rule) (s : Schema) :
  (Elements (Rule_Schema r) = [] -> Elements s = [] ->
   addRuleWithSchema B e r s = (e, Some (NoValidSchema (ID r)))) /\
  ((addRuleWithSchema B e r s).2 = None <-> Forall (registrable B) (governed r s)) /\
  ((addRuleWithSchema B e r s).2 = None ->
   NoDup (map ID (subRules r)) ->
   forall c sch, (c, sch) ∈ governed r s -> Expr c <> "" ->
     exists prg, programAgainst B sch c = Some prg /\
                 programs (addRuleWithSchema B e r s).1 !! ID c = Some prg).
Proof.
  split; [|split].
  - intros Hr Hs. rewrite cel_facts.addRuleWithSchema_unfold, chooseSchema_governing.
    unfold governing. rewrite Hr, Hs. reflexivity.
  - apply addRuleWithSchema_no_error.
  - intros Hok Hnodup c sch Hin Hexpr.
    destruct (addRuleWithSchema B e r s) as [e' err] eqn:Hrun.
    simpl in Hok. subst err.
    exact (addRuleWithSchema_compiled r e s e' Hrun Hnodup c sch Hin Hexpr).
Qed.

End Schema_facts.

(** C6 at a tree of four rules over the backend of variables.  The
    parent declares [flag], a Bool; its first child has no schema and the
    expression [flag]; its second child declares [n], an Int, and has the
    expression [n]; the child of the second child has no schema and the
    expression [n].  Registered without ambient schema, each rule gets
    the program of its variable at the type its governing schema
    declares; and a rule with the expression [flag] under the second
    child is refused, the schema of the second child having taken the
    place of the parent's. *)
Lemma schema_inheritance_witness :
  let flagSchema := schemaOf Bool ["flag"] in
  let nSchema := schemaOf Int ["n"] in
  let g := node "g" "n" [] in
  let c1 := node "c1" "flag" [] in
  let c2 := mkRule "c2" "n" nSchema Nil Nil Nil [] [g] in
  let p := mkRule "p" "flag" flagSchema Nil Nil Nil [] [c1; c2] in
  let bad := mkRule "p" "flag" flagSchema Nil Nil Nil []
                    [mkRule "c2" "n" nSchema Nil Nil Nil [] [node "g" "flag" []]] in
  let e' := (addRuleWithSchema varBackend NewEngine p noSchema).1 in
  addRuleWithSchema varBackend NewEngine (node "q" "" []) noSchema
    = (NewEngine, Some (NoValidSchema "q")) /\
  (addRuleWithSchema varBackend NewEngine p noSchema).2 = None /\
  governed p noSchema = [(p, flagSchema); (c1, flagSchema); (c2, nSchema); (g, nSchema)] /\
  programs e' !! "c1" = Some (varProgram decls_Bool "flag") /\
  programs e' !! "g" = Some (varProgram decls_Int "n") /\
  (addRuleWithSchema varBackend NewEngine bad noSchema).2 <> None.
Proof.
  intros flagSchema nSchema g c1 c2 p bad e'.
  destruct (schema_inheritance varBackend NewEngine (node "q" "" []) noSchema)
    as (Hnone & _ & _).
  destruct (schema_inheritance varBackend NewEngine p noSchema) as (_ & Hiff & Hprogs).
  destruct (schema_inheritance varBackend NewEngine bad noSchema) as (_ & Hbad & _).
  assert (Hok : (addRuleWithSchema varBackend NewEngine p noSchema).2 = None).
  { apply Hiff. repeat constructor; try discriminate; eexists; reflexivity. }
  assert (Hnodup : NoDup (map ID (subRules p))).
  { apply (bool_decide_unpack _). vm_compute. exact I. }
  split; [exact (Hnone eq_refl eq_refl)|]. split; [exact Hok|].
  split; [reflexivity|].
  split; [|split].
  - destruct (Hprogs Hok Hnodup c1 flagSchema) as (prg & Hprg & Hstored).
    + apply (list_elem_of_lookup_2 _ 1%nat). reflexivity.
    + discriminate.
    + transitivity (Some prg); [exact Hstored|]. rewrite <- Hprg. reflexivity.
  - destruct (Hprogs Hok Hnodup g nSchema) as (prg & Hprg & Hstored).
    + apply (list_elem_of_lookup_2 _ 3%nat). reflexivity.
    + discriminate.
    + transitivity (Some prg); [exact Hstored|]. rewrite <- Hprg. reflexivity.
  - intros Hno. apply Hbad in Hno.
    apply Forall_forall with (x := (node "g" "flag" [], nSchema)) in Hno.
    + destruct Hno as (_ & _ & Hsome). destruct Hsome as [prg Hprg]; discriminate.
    + apply (list_elem_of_lookup_2 _ 2%nat). reflexivity.
Defined.

End cel_schema_facts.

(** * Further properties of the helpers of the package rules *)
Module rules_coverage.
Import rules rules_examples rules_coverage_examples rules_runs.

Section Helpers_coverage.

Context {E : Type} `{Engine E}.
Variable rangeKeys : gmap string Rule -> list string.









(** The helpers fault on a nil result alone.  When [EvaluateRule] never
    returns a nil result together with a nil error, neither [EvaluateAll]
    nor [EvaluateUntilTrue] faults. *)
Theorem helpers_never_fault (e : E) (data : Data) (ruleSetID : string) :
  (forall e0 data0 ruleID w,
      Engine_EvaluateRule e0 data0 ruleSetID ruleID <> (w, (None, None))) ->
  (EvaluateAll rangeKeys e data ruleSetID).2 <> Panic /\
  (EvaluateUntilTrue rangeKeys e data ruleSetID).2 <> Panic.
Proof.
  intros Hnonnil.
  assert (Hall : forall ids e0 data0 acc,
             (evaluateAllLoop ruleSetID ids e0 data0 acc).2 <> Panic).
  { induction ids as [|ruleID ids IH]; intros e0 data0 acc; simpl; [discriminate|].
    destruct (Engine_EvaluateRule e0 data0 ruleSetID ruleID)
      as [[e1 data1] [[result|] [cerr|]]] eqn:Hev; simpl; try discriminate.
    - apply IH.
    - destruct (Hnonnil _ _ _ _ Hev). }
  assert (Huntil : forall ids e0 data0,
             (evaluateUntilTrueLoop ruleSetID ids e0 data0).2 <> Panic).
  { induction ids as [|ruleID ids IH]; intros e0 data0; simpl; [discriminate|].
    destruct (Engine_EvaluateRule e0 data0 ruleSetID ruleID)
      as [[e1 data1] [[result|] [cerr|]]] eqn:Hev; simpl; try discriminate.
    - destruct (Pass result); [discriminate | apply IH].
    - destruct (Hnonnil _ _ _ _ Hev). }
  unfold EvaluateAll, EvaluateUntilTrue.
  destruct (Engine_RuleSet e ruleSetID) as [ruleSet [|]]; simpl.
  - split; [|apply Huntil].
    pose proof (Hall (rangeKeys (Rules ruleSet)) e data []) as Hloop.
    destruct (evaluateAllLoop ruleSetID (rangeKeys (Rules ruleSet)) e data [])
      as [w [[rs lerr]|]]; simpl in *; [discriminate | destruct (Hloop eq_refl)].
  - split; discriminate.
Qed.

End Helpers_coverage.



(** The helpers do not fault, at an engine whose [EvaluateRule] returns a
    result for every rule. *)
Lemma helpers_never_fault_witness :
  (@EvaluateAll _ neverPasses keysInOrder {[ "set" := twoRules ]} ∅ "set").2 <> Panic /\
  (@EvaluateUntilTrue _ neverPasses keysInOrder {[ "set" := twoRules ]} ∅ "set").2 <> Panic.
Proof.
  apply (@helpers_never_fault _ neverPasses keysInOrder).
  intros e0 data0 ruleID w. discriminate.
Defined.

End rules_coverage.
